(** * autoptsserver: the supervision layer of the auto-pts server

    A shallow embedding of [autoptsserver.py]: the argument check, the
    recovery steps ([kill_all_processes], [delete_workspaces],
    [turn_on_dongle], [recover_pts]), the [SuperGuard] watchdog, the
    [Server] worker with the functions it registers on its XML-RPC endpoint,
    and the supervising loop of [__main__].

    Conventions of the embedding.
    - Time ([time.time()], the superguard timeout) is a [Z] number of clock
      units (seconds); the source uses floats.
    - Python objects that are shared by reference ([Server] instances held by
      the watchdog, by [multi_main] and by their own threads) live in a
      [heap] and are named by their index.
    - Code that can raise runs in the monad [M]: a state monad over [World]
      whose results are [Ok v], [Raise e], or [Running] for a loop that
      has not ended within the passes it is given.
    - Effects on the operating system are applied to the [World] (process
      table, workspace tree) and recorded, in order, in its [trace].
    - A call into a library returns unless its failure is written out
      here: [Terminate] of a process that is gone, [os.scandir] of a
      directory that does not exist, [os.remove] of a directory, and
      [subprocess.Popen] of a program that is not installed raise.
    - The threads are interleaved at the grain of one method call or one
      pass of a loop; a firing pass of the watchdog and [clear()], which
      take no lock, are also given statement by statement ([Stmt]).
    - [log], [logging.*] and [print] calls are not recorded. *)

From Stdlib Require Import ZArith List String Bool Lia DecimalString.
From stdpp Require Import base list strings.
Import ListNotations.

Set Warnings "-register-all".
Local Open Scope string_scope.
Local Open Scope list_scope.
Local Open Scope Z_scope.

(** ** Python values used by the program *)

(** Exceptions.  [SystemExit] carries the status given to [sys.exit];
    [sys.exit] with a message prints it and gives status 1. *)
Inductive exn :=
| KeyboardInterrupt
| SystemExit (status : Z)
| SystemExitMsg (msg : string)
| Exception (msg : string)
| OSError (what : string)
| TypeError (what : string)
| AttributeError (what : string).

(** How a call ends: it returns, it raises, or (for the loops of the
    program, run with a bound on their passes) it is still running. *)
Inductive result (A : Type) :=
| Ok (v : A)
| Raise (e : exn)
| Running.
Arguments Ok {A} v.
Arguments Raise {A} e.
Arguments Running {A}.

(** [str(n)] for an integer. *)
Definition str (n : Z) : string := NilZero.string_of_int (Z.to_int n).

Definition startswith (s pre : string) : bool := String.prefix pre s.

Definition endswith (s suf : string) : bool :=
  let n := String.length s in
  let k := String.length suf in
  (k <=? n)%nat && String.eqb (substring (n - k) k s) suf.

(** Entries of a directory: regular files and sub-directories. *)
Inductive node :=
| File (name : string) (data : string)
| Dir (name : string) (entries : list node).

Definition node_name (f : node) : string :=
  match f with File n _ => n | Dir n _ => n end.

Definition is_dir (f : node) : bool :=
  match f with Dir _ _ => true | File _ _ => false end.

(** A path below [PROJECT_DIR/workspaces], as its list of components;
    [os.path.join root name] is [root ++ [name]]. *)
Definition path := list string.

(** A row of [Win32_Process].  [gone] tells that [Terminate] on it raises
    (the process is not running any more). *)
Record Process := {
  Name : string;
  ProcessId : Z;
  gone : bool
}.

(** The [ptscontrol.PyPTS] instance of a server; only [last_start_time] is
    read in this file. *)
Record PyPTS := { last_start_time : Z }.

Module Server.
(** The fields set by [Server.__init__]: [queue] and [server] are
    tested for truth only, so they are kept as "is set" flags; [_args]
    keeps the port of the copied arguments.  [alive] is the state of the
    thread the object is ([is_alive()]). *)
Record t := {
  queue : bool;
  server : bool;
  _args : option Z;
  pts : option PyPTS;
  alive : bool
}.

Definition __init__ (_args : option Z) (_queue : bool) : t :=
  {| queue := _queue; server := false; _args := _args; pts := None;
     alive := false |}.

Definition set_server (v : bool) (s : t) : t :=
  {| queue := queue s; server := v; _args := _args s; pts := pts s;
     alive := alive s |}.

Definition set_pts (v : option PyPTS) (s : t) : t :=
  {| queue := queue s; server := server s; _args := _args s; pts := v;
     alive := alive s |}.

Definition set_alive (v : bool) (s : t) : t :=
  {| queue := queue s; server := server s; _args := _args s; pts := pts s;
     alive := v |}.
End Server.

#[global] Instance Server_inhabited : Inhabited Server.t :=
  populate (Server.__init__ None false).

Module SuperGuard.
(** The fields set by [SuperGuard.__init__]; [servers] holds references.
    [self.queue] is never read and is left out. *)
Record t := {
  servers : list nat;
  timeout : Z;
  end_ : bool;
  was_timeout : bool
}.

Definition __init__ (timeout : Z) : t :=
  {| servers := []; timeout := timeout; end_ := false; was_timeout := false |}.

Definition set_servers (v : list nat) (g : t) : t :=
  {| servers := v; timeout := timeout g; end_ := end_ g;
     was_timeout := was_timeout g |}.

Definition set_end (v : bool) (g : t) : t :=
  {| servers := servers g; timeout := timeout g; end_ := v;
     was_timeout := was_timeout g |}.

Definition set_was_timeout (v : bool) (g : t) : t :=
  {| servers := servers g; timeout := timeout g; end_ := end_ g;
     was_timeout := v |}.
End SuperGuard.

(** What the program does to its environment, in order: a thread started
    on [self.server.shutdown], a process terminated, [os.remove],
    [shutil.rmtree], [subprocess.Popen], and [sleep]. *)
Inductive Event :=
| EvShutdown (srv : nat)
| EvTerminate (name : string) (pid : Z)
| EvRemove (p : path)
| EvRmtree (p : path)
| EvPopen (argv : list string)
| EvSleep (secs : Z).

(** The state the program runs in: the clock, the [Server] objects, the
    one [Queue] of the program (as the [str] of its items), the
    [superguard] of [__main__] and whether its thread was started, the
    process table, the entries of [PROJECT_DIR/workspaces] ([None] when
    the directory does not exist), whether [ykushcmd] can be started,
    whether [sys.platform] is ["win32"], and the effects so far. *)
Record World := {
  now : Z;
  heap : list Server.t;
  queue : list string;
  superguard : SuperGuard.t;
  superguard_started : bool;
  procs : list Process;
  workspaces : option (list node);
  ykushcmd_installed : bool;
  win32 : bool;
  trace : list Event
}.

Definition set_now (v : Z) (w : World) : World :=
  {| now := v; heap := heap w; queue := queue w; superguard := superguard w;
     superguard_started := superguard_started w; procs := procs w;
     workspaces := workspaces w; ykushcmd_installed := ykushcmd_installed w;
     win32 := win32 w; trace := trace w |}.

Definition set_heap (v : list Server.t) (w : World) : World :=
  {| now := now w; heap := v; queue := queue w; superguard := superguard w;
     superguard_started := superguard_started w; procs := procs w;
     workspaces := workspaces w; ykushcmd_installed := ykushcmd_installed w;
     win32 := win32 w; trace := trace w |}.

Definition set_queue (v : list string) (w : World) : World :=
  {| now := now w; heap := heap w; queue := v; superguard := superguard w;
     superguard_started := superguard_started w; procs := procs w;
     workspaces := workspaces w; ykushcmd_installed := ykushcmd_installed w;
     win32 := win32 w; trace := trace w |}.

Definition set_superguard (v : SuperGuard.t) (w : World) : World :=
  {| now := now w; heap := heap w; queue := queue w; superguard := v;
     superguard_started := superguard_started w; procs := procs w;
     workspaces := workspaces w; ykushcmd_installed := ykushcmd_installed w;
     win32 := win32 w; trace := trace w |}.

Definition set_superguard_started (v : bool) (w : World) : World :=
  {| now := now w; heap := heap w; queue := queue w; superguard := superguard w;
     superguard_started := v; procs := procs w;
     workspaces := workspaces w; ykushcmd_installed := ykushcmd_installed w;
     win32 := win32 w; trace := trace w |}.

Definition set_procs (v : list Process) (w : World) : World :=
  {| now := now w; heap := heap w; queue := queue w; superguard := superguard w;
     superguard_started := superguard_started w; procs := v;
     workspaces := workspaces w; ykushcmd_installed := ykushcmd_installed w;
     win32 := win32 w; trace := trace w |}.

Definition set_workspaces (v : option (list node)) (w : World) : World :=
  {| now := now w; heap := heap w; queue := queue w; superguard := superguard w;
     superguard_started := superguard_started w; procs := procs w;
     workspaces := v; ykushcmd_installed := ykushcmd_installed w;
     win32 := win32 w; trace := trace w |}.

Definition set_trace (v : list Event) (w : World) : World :=
  {| now := now w; heap := heap w; queue := queue w; superguard := superguard w;
     superguard_started := superguard_started w; procs := procs w;
     workspaces := workspaces w; ykushcmd_installed := ykushcmd_installed w;
     win32 := win32 w; trace := v |}.

(** ** The monad of the program: state and exceptions *)

Definition M (A : Type) : Type := World -> result A * World.

Definition ret {A} (v : A) : M A := fun w => (Ok v, w).

Definition raise {A} (e : exn) : M A := fun w => (Raise e, w).

Definition bind {A B} (m : M A) (k : A -> M B) : M B :=
  fun w =>
    match m w with
    | (Ok v, w') => k v w'
    | (Raise e, w') => (Raise e, w')
    | (Running, w') => (Running, w')
    end.

(** [try: m except BaseException as e: h e] *)
Definition try_except {A} (m : M A) (h : exn -> M A) : M A :=
  fun w =>
    match m w with
    | (Ok v, w') => (Ok v, w')
    | (Raise e, w') => h e w'
    | (Running, w') => (Running, w')
    end.

Notation "x <- m ;; k" := (bind m (fun x => k))
  (at level 100, m at next level, k at level 200, right associativity).
Notation "m ;; k" := (bind m (fun _ => k))
  (at level 100, k at level 200, right associativity).

Definition gets {A} (f : World -> A) : M A := fun w => (Ok (f w), w).

Definition modify (f : World -> World) : M unit := fun w => (Ok tt, f w).

Definition emit (e : Event) : M unit :=
  modify (fun w => set_trace (trace w ++ [e]) w).

(** [for x in xs: body x] *)
Fixpoint for_ {A} (xs : list A) (body : A -> M unit) : M unit :=
  match xs with
  | [] => ret tt
  | x :: rest => body x ;; for_ rest body
  end.

(** [time.time()] *)
Definition time_time : M Z := gets now.


(** ** Command line arguments *)

(** [arg.srv_port] is the list built by [nargs="+"] until [check_args]
    replaces a one-element list by its element. *)
Inductive srv_port_t :=
| PortList (ports : list Z)
| PortInt (port : Z).

Module Namespace.
Record t := {
  srv_port : srv_port_t;
  recovery : bool;
  superguard : Z;
  ykush : list string
}.

Definition set_srv_port (v : srv_port_t) (arg : t) : t :=
  {| srv_port := v; recovery := recovery arg;
     superguard := superguard arg; ykush := ykush arg |}.

Definition set_superguard (v : Z) (arg : t) : t :=
  {| srv_port := srv_port arg; recovery := recovery arg;
     superguard := v; ykush := ykush arg |}.
End Namespace.

Definition invalid_port (srv_port : Z) : string :=
  ("Invalid server port number=" ++ str srv_port ++
   ", expected range <49152,65535> ")%string.

(** [SvrArgumentParser.check_args] *)
Definition check_args (arg : Namespace.t) : M Namespace.t :=
  match Namespace.srv_port arg with
  | PortInt _ => raise (TypeError "'int' object is not iterable")
  | PortList ports =>
      for_ ports (fun srv_port =>
        if negb ((49152 <=? srv_port) && (srv_port <=? 65535))
        then raise (SystemExitMsg (invalid_port srv_port))
        else ret tt) ;;
      let arg :=
        match ports with
        | [p] => Namespace.set_srv_port (PortInt p) arg
        | _ => arg
        end in
      ret (Namespace.set_superguard (60 * Namespace.superguard arg) arg)
  end.

(** ** Recovery steps *)

(** [c.Win32_Process(name=name)]: the rows of the process table with that
    name, as they are when the query runs. *)
Definition Win32_Process (name : string) : M (list Process) :=
  gets (fun w => List.filter (fun ps => String.eqb (Name ps) name) (procs w)).

(** [ps.Terminate()] *)
Definition Terminate (ps : Process) : M unit :=
  if gone ps then raise (Exception "x_wmi")
  else
    modify (fun w =>
      set_procs (List.filter (fun q => negb (ProcessId q =? ProcessId ps)) (procs w)) w) ;;
    emit (EvTerminate (Name ps) (ProcessId ps)).

Definition kill_all_processes (name : string) : M unit :=
  pss <- Win32_Process name ;;
  for_ pss (fun ps => try_except (Terminate ps) (fun exc => ret tt)).

(** [f.name.startswith('temp_') and f.name.endswith('.pqw6')] *)
Definition temp_workspace (name : string) : bool :=
  startswith name "temp_" && endswith name ".pqw6".

(** The result of scanning a directory: the exception that ended the scan
    if one did, the entries the directory holds afterwards, and the
    removals done, in order. *)
Definition Scan : Type := option exn * list node * list Event.

Section ForEntries.
Variable body : node -> Scan.

(** [for f in iterator: body f] over the entries of one directory; an
    exception leaves the entries not reached yet as they are. *)
Fixpoint scan_entries (es : list node) : Scan :=
  match es with
  | [] => (None, [], [])
  | f :: rest =>
      match body f with
      | (None, kept, evs) =>
          let '(r, kept', evs') := scan_entries rest in
          (r, kept ++ kept', evs ++ evs')
      | (Some e, kept, evs) => (Some e, kept ++ rest, evs)
      end
  end.
End ForEntries.

(** The body of the loop of [recursive], for the entry [f] of
    [directory]; [depth] is the value after [depth -= 1].  [os.remove] of
    a directory raises. *)
Fixpoint recursive_entry (directory : path) (depth : Z) (f : node) : Scan :=
  match f with
  | Dir name sub =>
      if 0 <? depth then
        let '(r, sub', evs) :=
          scan_entries (recursive_entry (directory ++ [name]) (depth - 1)) sub in
        (r, [Dir name sub'], evs)
      else if temp_workspace name then
        (Some (OSError "remove: is a directory"), [f], [])
      else (None, [f], [])
  | File name _ =>
      if temp_workspace name then (None, [], [EvRemove (directory ++ [name])])
      else (None, [f], [])
  end.

Definition recursive (directory : path) (depth : Z) (es : list node) : Scan :=
  let depth := depth - 1 in
  scan_entries (recursive_entry directory depth) es.

Definition init_depth : Z := 4.

(** [os.scandir] of a directory that does not exist raises. *)
Definition delete_workspaces : M unit :=
  fun w =>
    match workspaces w with
    | None => (Raise (OSError "scandir: no such directory"), w)
    | Some es =>
        let '(r, es', evs) := recursive [] init_depth es in
        (match r with Some e => Raise e | None => Ok tt end,
         set_trace (trace w ++ evs) (set_workspaces (Some es') w))
    end.

(** [subprocess.Popen(argv, stdout=PIPE)]: raises when the program is not
    found; the child is not waited for. *)
Definition Popen (argv : list string) : M unit :=
  installed <- gets ykushcmd_installed ;;
  if installed : bool then emit (EvPopen argv)
  else raise (OSError "Popen: no such file").

(** [time.sleep(secs)] and [sleep(secs)]: the clock itself is moved by the
    environment. *)
Definition sleep (secs : Z) : M unit := emit (EvSleep secs).

(** The ports come from [argparse] as strings, so [str(port)] is [port]. *)
Definition turn_on_dongle (ykush_ports : list string) : M unit :=
  is_win32 <- gets win32 ;;
  let ykushcmd := if is_win32 : bool then ("ykushcmd" ++ ".exe")%string else "ykushcmd" in
  for_ ykush_ports (fun port => Popen [ykushcmd; "-d"; port]) ;;
  sleep 5 ;;
  for_ ykush_ports (fun port => Popen [ykushcmd; "-u"; port]) ;;
  sleep 2.

(** [ykush_ports] is a list; the default [None] is as false as []. *)
Definition recover_pts (ykush_ports : list string) : M unit :=
  kill_all_processes "PTS.exe" ;;
  kill_all_processes "Fts.exe" ;;
  delete_workspaces ;;
  match ykush_ports with
  | [] => ret tt
  | _ => turn_on_dongle ykush_ports
  end.

(** ** Server: one worker and the functions of its endpoint *)

(** The object behind a reference.  References are made by [new] only, so
    they are always inside the heap. *)
Definition deref (i : nat) : M Server.t := gets (fun w => heap w !!! i).

Definition update (i : nat) (f : Server.t -> Server.t) : M unit :=
  modify (fun w => set_heap (<[i := f (heap w !!! i)]> (heap w)) w).

(** [Server(_args=..., _queue=...)] *)
Definition new (_args : option Z) (_queue : bool) : M nat :=
  i <- gets (fun w => length (heap w)) ;;
  modify (fun w => set_heap (heap w ++ [Server.__init__ _args _queue]) w) ;;
  ret i.

(** [self.queue.put(Exception(msg))]; the queue keeps [str] of its items. *)
Definition put (msg : string) : M unit :=
  modify (fun w => set_queue (queue w ++ [msg]) w).

Definition Server_last_start (self : nat) : M Z :=
  srv <- deref self ;;
  match Server.pts srv with
  | Some pts => ret (last_start_time pts)
  | None => time_time
  end.

(** [Server.terminate]: the thread that runs [self.server.shutdown] is
    started and not waited for. *)
Definition Server_terminate (self : nat) (msg : string) : M unit :=
  srv <- deref self ;;
  try_except
    (if Server.server srv then emit (EvShutdown self) else ret tt)
    (fun exc => ret tt) ;;
  if Server.queue srv then put msg else ret tt.

Definition Server_request_recovery (self : nat) : M unit :=
  Server_terminate self "Recovery request".

(** The workspace tree as the file functions see it. *)
Definition find_entry (es : list node) (name : string) : option node :=
  List.find (fun f => String.eqb (node_name f) name) es.

Fixpoint lookup_path (es : list node) (p : path) : option node :=
  match p with
  | [] => None
  | name :: rest =>
      match find_entry es name, rest with
      | Some f, [] => Some f
      | Some (Dir _ sub), _ => lookup_path sub rest
      | _, _ => None
      end
  end.

(** The entries of the directory at [p]; [[]] is the workspaces directory. *)
Definition listdir (p : path) (w : World) : option (list node) :=
  match workspaces w, p with
  | None, _ => None
  | Some es, [] => Some es
  | Some es, _ =>
      match lookup_path es p with
      | Some (Dir _ sub) => Some sub
      | _ => None
      end
  end.

Definition isfile (p : path) (w : World) : option string :=
  match workspaces w with
  | Some es =>
      match lookup_path es p with
      | Some (File _ data) => Some data
      | _ => None
      end
  | None => None
  end.

Definition isdir (p : path) (w : World) : bool :=
  match listdir p w with Some _ => true | None => false end.

Fixpoint remove_path (es : list node) (p : path) : list node :=
  match p with
  | [] => es
  | [name] => List.filter (fun f => negb (String.eqb (node_name f) name)) es
  | name :: rest =>
      List.map (fun f =>
        match f with
        | Dir n sub =>
            if String.eqb n name then Dir n (remove_path sub rest) else f
        | File _ _ => f
        end) es
  end.

Definition unlink (p : path) (w : World) : World :=
  match workspaces w, p with
  | Some es, [] => set_workspaces None w
  | Some es, _ => set_workspaces (Some (remove_path es p)) w
  | None, _ => w
  end.

Definition dirnames (es : list node) : list string :=
  List.map node_name (List.filter is_dir es).

Definition filenames (es : list node) : list string :=
  List.map node_name (List.filter (fun f => negb (is_dir f)) es).

(** [os.walk]: the triples [(root, dirs, files)] it yields. *)
Fixpoint walk_node (topdown : bool) (parent : path) (f : node)
  : list (path * list string * list string) :=
  match f with
  | File _ _ => []
  | Dir name es =>
      let root := parent ++ [name] in
      let below := flat_map (walk_node topdown root) es in
      if topdown then (root, dirnames es, filenames es) :: below
      else below ++ [(root, dirnames es, filenames es)]
  end.

Definition os_walk (top : path) (topdown : bool)
  : M (list (path * list string * list string)) :=
  gets (fun w =>
    match listdir top w with
    | None => []
    | Some es =>
        let below := flat_map (walk_node topdown top) es in
        if topdown then (top, dirnames es, filenames es) :: below
        else below ++ [(top, dirnames es, filenames es)]
    end).

Fixpoint first_named (workspace : string)
  (tree : list (path * list string * list string)) : option path :=
  match tree with
  | [] => None
  | (root, dirs, files) :: rest =>
      match List.find (String.eqb workspace) dirs with
      | Some name => Some (root ++ [name])
      | None => first_named workspace rest
      end
  end.

Definition get_workspace (workspace : string) : M (option path) :=
  tree <- os_walk [] true ;;
  ret (first_named workspace tree).

(** [os.walk(None)] raises. *)
Definition Server_list_workspace_tree (self : nat) (workspace_dir : string)
  : M (list path) :=
  logs_root <- get_workspace workspace_dir ;;
  match logs_root with
  | None => raise (TypeError "expected str, bytes or os.PathLike object")
  | Some top =>
      tree <- os_walk top false ;;
      ret (flat_map (fun '(root, dirs, files) =>
             List.map (fun name => root ++ [name]) files ++ [root]) tree)
  end.

Definition Server_copy_file (self : nat) (file_path : path) : M (option string) :=
  gets (isfile file_path).

Definition Server_delete_file (self : nat) (file_path : path) : M unit :=
  file <- gets (isfile file_path) ;;
  match file with
  | Some _ => emit (EvRemove file_path) ;; modify (unlink file_path)
  | None =>
      dir <- gets (isdir file_path) ;;
      if dir : bool
      then emit (EvRmtree file_path) ;; modify (unlink file_path)
      else ret tt
  end.

(** ** SuperGuard: the watchdog *)

Definition SuperGuard_add_server (srv : nat) : M unit :=
  modify (fun w =>
    set_superguard
      (SuperGuard.set_servers (SuperGuard.servers (superguard w) ++ [srv])
         (superguard w)) w).

Definition SuperGuard_clear : M unit :=
  modify (fun w =>
    set_superguard (SuperGuard.set_servers [] (superguard w)) w) ;;
  modify (fun w =>
    set_superguard (SuperGuard.set_was_timeout false (superguard w)) w).

(** The first [for] of [SuperGuard.run], with [idle_num] so far. *)
Fixpoint count_idle (srvs : list nat) (idle_num : nat) : M nat :=
  match srvs with
  | [] => ret idle_num
  | srv :: rest =>
      t <- time_time ;;
      started <- Server_last_start srv ;;
      timeout <- gets (fun w => SuperGuard.timeout (superguard w)) ;;
      count_idle rest (if t - started >? timeout then S idle_num else idle_num)
  end.

(** One pass of [while not self.end] in [SuperGuard.run]. *)
Definition SuperGuard_run_pass : M unit :=
  srvs <- gets (fun w => SuperGuard.servers (superguard w)) ;;
  idle_num <- count_idle srvs 0 ;;
  (if (idle_num =? length srvs)%nat && negb (idle_num =? 0)%nat then
     for_ srvs (fun srv => Server_terminate srv "Superguard timeout") ;;
     modify (fun w =>
       set_superguard (SuperGuard.set_was_timeout true (superguard w)) w) ;;
     modify (fun w =>
       set_superguard (SuperGuard.set_servers [] (superguard w)) w)
   else ret tt) ;;
  sleep 5.

Definition SuperGuard_terminate : M unit :=
  modify (fun w => set_superguard (SuperGuard.set_end true (superguard w)) w).

(** ** The threads of the program

    The code of one thread is a function in [M].  What it waits for is
    given from outside: the constructors of the engine handle and of the
    XML-RPC endpoint, [serve_forever], the text of a traceback, and [env],
    which stands for what the other threads do while this one sleeps. *)

Definition running {A} : M A := fun w => (Running, w).

Definition nl : string := String (Ascii.ascii_of_nat 10) EmptyString.

(** [except Exception] does not catch these two. *)
Definition is_Exception (e : exn) : bool :=
  match e with
  | KeyboardInterrupt | SystemExit _ | SystemExitMsg _ => false
  | _ => true
  end.

Inductive Flow := Break | Again.

Definition exn_is_interrupt (e : exn) : bool :=
  match e with KeyboardInterrupt => true | _ => false end.

Section Program.
Variable PyPTSWithXmlRpcCallback : M PyPTS.
Variable SimpleXMLRPCServer : Z -> M unit.
Variable serve_forever : nat -> M unit.
Variable format_exc : exn -> string.
Variable env : M unit.

Definition pause (secs : Z) : M unit := sleep secs ;; env.

(** [SuperGuard.run], for at most [fuel] passes. *)
Fixpoint SuperGuard_run (fuel : nat) : M unit :=
  match fuel with
  | O => running
  | S fuel' =>
      stop <- gets (fun w => SuperGuard.end_ (superguard w)) ;;
      if stop : bool then ret tt
      else SuperGuard_run_pass ;; env ;; SuperGuard_run fuel'
  end.

(** [Server.main] with [_args.srv_port = srv_port]. *)
Definition Server_main (self : nat) (srv_port : Z) : M Z :=
  pts <- PyPTSWithXmlRpcCallback ;;
  update self (Server.set_pts (Some pts)) ;;
  SimpleXMLRPCServer srv_port ;;
  update self (Server.set_server true) ;;
  serve_forever self ;;
  ret 0.

Definition Server_run (self : nat) : M unit :=
  srv <- deref self ;;
  try_except
    (match Server._args srv with
     | Some srv_port => Server_main self srv_port ;; ret tt
     | None => raise (AttributeError "srv_port")
     end)
    (fun exc =>
       if is_Exception exc then
         match Server._args srv with
         | Some srv_port =>
             Server_terminate self
               ("from Server process on port " ++ str srv_port ++ ":" ++ nl
                ++ format_exc exc)%string
         | None => raise (AttributeError "srv_port")
         end
       else raise exc).

(** [srv.start()]: the thread exists from now on; its [run] is part of
    [env] for the caller. *)
Definition start (srv : nat) : M unit := update srv (Server.set_alive true).

(** The first loop of [multi_main], with [servers] so far. *)
Fixpoint multi_main_start (ports : list Z) (servers : list nat)
  : M (list nat) :=
  match ports with
  | [] => ret servers
  | port :: rest =>
      srv <- new (Some port) true ;;
      start srv ;;
      SuperGuard_add_server srv ;;
      pause 5 ;;
      multi_main_start rest (servers ++ [srv])
  end.

(** [while _queue.empty(): ...], for at most [fuel] passes. *)
Fixpoint multi_main_wait (fuel : nat) (servers : list nat) : M unit :=
  match fuel with
  | O => running
  | S fuel' =>
      q <- gets queue ;;
      match q with
      | [] =>
          for_ servers (fun srv =>
            s <- deref srv ;;
            if negb (Server.alive s) then put "Server is down" else ret tt) ;;
          pause 2 ;;
          multi_main_wait fuel' servers
      | _ => ret tt
      end
  end.

Definition multi_main (fuel : nat) (_args : Namespace.t) : M unit :=
  match Namespace.srv_port _args with
  | PortInt _ => raise (TypeError "'int' object is not iterable")
  | PortList ports =>
      servers <- multi_main_start ports [] ;;
      multi_main_wait fuel servers ;;
      for_ servers (fun s => Server_terminate s "")
  end.

(** The [if isinstance(_args.srv_port, int)] of the main loop. *)
Definition fleet (fuel : nat) (_args : Namespace.t) : M unit :=
  match Namespace.srv_port _args with
  | PortInt srv_port =>
      server <- new None true ;;
      SuperGuard_add_server server ;;
      Server_main server srv_port ;;
      ret tt
  | PortList _ => multi_main fuel _args
  end.

(** [while not queue.empty(): exceptions += str(queue.get_nowait()) + '\n'] *)
Definition collect : M string :=
  q <- gets queue ;;
  modify (set_queue []) ;;
  ret (fold_left (fun exceptions e => (exceptions ++ e ++ nl)%string) q "").

(** One pass of [while True] in [__main__]; [body] is the [if] that runs
    the fleet. *)
Definition main_pass (_args : Namespace.t) (body : M unit) : M Flow :=
  try_except
    (body ;;
     exceptions <- collect ;;
     if negb (String.eqb exceptions "") then raise (Exception exceptions)
     else ret Break)
    (fun e =>
       match e with
       | KeyboardInterrupt => raise (SystemExit 14)
       | _ =>
           was_timeout <- gets (fun w => SuperGuard.was_timeout (superguard w)) ;;
           if Namespace.recovery _args || was_timeout then
             SuperGuard_clear ;;
             recover_pts (Namespace.ykush _args) ;;
             ret Again
           else raise (SystemExit 16)
       end).

Fixpoint main_loop (fuel : nat) (_args : Namespace.t) : M unit :=
  match fuel with
  | O => running
  | S fuel' =>
      flow <- main_pass _args (fleet fuel' _args) ;;
      match flow with
      | Break => ret tt
      | Again => main_loop fuel' _args
      end
  end.

(** [__main__] up to the loop: the arguments, the queue, the watchdog
    and its start.  ([winutils.exit_if_admin] and the removal of old log
    files are left out.) *)
Definition boot (arg : Namespace.t) : M Namespace.t :=
  _args <- check_args arg ;;
  modify (set_queue []) ;;
  modify (fun w =>
    set_superguard_started false
      (set_superguard (SuperGuard.__init__ (Namespace.superguard _args)) w)) ;;
  (if Namespace.superguard _args =? 0 then ret tt
   else modify (set_superguard_started true)) ;;
  ret _args.

Definition main (fuel : nat) (arg : Namespace.t) : M unit :=
  _args <- boot arg ;;
  main_loop fuel _args.
End Program.

(** The status the process ends with, when it ends: 0 when the script runs
    to its end, the argument of [sys.exit], and 1 for [sys.exit] with a
    message and for an exception nobody caught. *)
Definition exit_status {A} (r : result A) : option Z :=
  match r with
  | Ok _ => Some 0
  | Raise (SystemExit status) => Some status
  | Raise _ => Some 1
  | Running => None
  end.

(** ** The threads together

    A run of the program is a sequence of steps of its threads and of its
    environment; each step is atomic.  The watchdog thread steps only
    when [superguard.start()] was called. *)

(** The functions [Server.main] registers on the endpoint by name. *)
Inductive Call :=
| request_recovery
| list_workspace_tree (workspace_dir : string)
| copy_file (file_path : path)
| delete_file (file_path : path).

Definition dispatch (self : nat) (c : Call) : M unit :=
  match c with
  | request_recovery => Server_request_recovery self
  | list_workspace_tree d => Server_list_workspace_tree self d ;; ret tt
  | copy_file p => Server_copy_file self p ;; ret tt
  | delete_file p => Server_delete_file self p
  end.

(** Modelled from the spec: [ptscontrol.PyPTS], which is not in this file,
    sets [last_start_time] to the time at which the engine begins new
    work. *)
Definition begin_work (self : nat) : M unit :=
  t <- time_time ;;
  srv <- deref self ;;
  match Server.pts srv with
  | Some _ => update self (Server.set_pts (Some {| last_start_time := t |}))
  | None => ret tt
  end.

(** The steps.
    - [Tick dt]: the clock moves on by [dt].
    - [Guard]: the watchdog thread does one pass of [SuperGuard.run].
    - [Register _args]: the main thread makes a [Server], starts it, and
      adds it to the watchdog.
    - [Started srv pts]: [Server.main] of [srv] has made its engine handle
      [pts] and its endpoint.
    - [Work srv]: the engine of [srv] begins new work.
    - [Serve srv c]: [srv] serves the request [c].
    - [Failed srv msg]: [Server.run] of [srv] catches an exception, calls
      [terminate(msg)], and the thread ends.
    - [Down]: [multi_main] finds a dead thread and queues ['Server is down'].
    - [Stop srv]: [multi_main] calls [terminate('')] on [srv].
    - [Collect]: the main loop empties the queue.
    - [Recover ykush_ports]: the main loop clears the watchdog and runs
      [recover_pts]. *)
Inductive Step :=
| Tick (dt : Z)
| Guard
| Register (_args : option Z)
| Started (srv : nat) (pts : PyPTS)
| Work (srv : nat)
| Serve (srv : nat) (c : Call)
| Failed (srv : nat) (msg : string)
| Down
| Stop (srv : nat)
| Collect
| Recover (ykush_ports : list string).

Definition step (s : Step) (w : World) : option World :=
  match s with
  | Tick dt => if 0 <=? dt then Some (set_now (now w + dt) w) else None
  | Guard =>
      if superguard_started w && negb (SuperGuard.end_ (superguard w))
      then Some (snd (SuperGuard_run_pass w))
      else None
  | Register _args =>
      Some (snd ((srv <- new _args true ;;
                  update srv (Server.set_alive true) ;;
                  SuperGuard_add_server srv) w))
  | Started srv pts =>
      Some (snd ((update srv (Server.set_pts (Some pts)) ;;
                  update srv (Server.set_server true)) w))
  | Work srv => Some (snd (begin_work srv w))
  | Serve srv c => Some (snd (dispatch srv c w))
  | Failed srv msg =>
      Some (snd ((Server_terminate srv msg ;;
                  update srv (Server.set_alive false)) w))
  | Down => Some (snd (put "Server is down" w))
  | Stop srv => Some (snd (Server_terminate srv "" w))
  | Collect => Some (snd (collect w))
  | Recover ykush_ports =>
      Some (snd ((SuperGuard_clear ;; recover_pts ykush_ports) w))
  end.

Fixpoint exec (steps : list Step) (w : World) : option World :=
  match steps with
  | [] => Some w
  | s :: rest =>
      match step s w with
      | Some w' => exec rest w'
      | None => None
      end
  end.

(** * The vocabulary of the properties *)

(** ** Workers and the watchdog *)

(** What [last_start()] returns. *)
Definition last_start_at (w : World) (srv : nat) : Z :=
  match Server.pts (heap w !!! srv) with
  | Some pts => last_start_time pts
  | None => now w
  end.

Definition has_queue (w : World) (srv : nat) : bool :=
  Server.queue (heap w !!! srv).

Definition has_endpoint (w : World) (srv : nat) : bool :=
  Server.server (heap w !!! srv).

(** The world after [terminate(msg)] on each of [srvs]. *)
Definition terminated (srvs : list nat) (msg : string) (w : World) : World :=
  set_trace (trace w ++ List.map EvShutdown (List.filter (has_endpoint w) srvs))
    (set_queue (queue w ++ List.map (fun _ => msg) (List.filter (has_queue w) srvs)) w).

Definition idle (w : World) (srv : nat) : bool :=
  now w - last_start_at w srv >? SuperGuard.timeout (superguard w).

(** Every registered worker is idle past the threshold and there is one. *)
Definition all_idle (w : World) : Prop :=
  SuperGuard.servers (superguard w) <> [] /\
  forall srv, In srv (SuperGuard.servers (superguard w)) ->
    now w - last_start_at w srv > SuperGuard.timeout (superguard w).

(** The world after a pass that fires. *)
Definition fired (w : World) : World :=
  let w1 := terminated (SuperGuard.servers (superguard w)) "Superguard timeout" w in
  let w2 := set_superguard (SuperGuard.set_was_timeout true (superguard w1)) w1 in
  let w3 := set_superguard (SuperGuard.set_servers [] (superguard w2)) w2 in
  set_trace (trace w3 ++ [EvSleep 5]) w3.

(** Steps during which nothing is registered and no worker is told to
    stop by anyone but the watchdog. *)
Definition watching (s : Step) : bool :=
  match s with
  | Tick _ | Guard | Work _ => true
  | _ => false
  end.

(** [n] calls of [terminate(msg)] on the same worker, one after the other. *)
Definition calls (n : nat) (srv : nat) (msg : string) : M unit :=
  for_ (repeat srv n) (fun self => Server_terminate self msg).

(** ** Sample worlds *)

Definition world0 : World :=
  {| now := 0; heap := []; queue := [];
     superguard := SuperGuard.__init__ 10; superguard_started := true;
     procs := []; workspaces := Some []; ykushcmd_installed := true;
     win32 := true; trace := [] |}.

(** A worker that is up: queue attached, endpoint listening. *)
Definition worker_up (t0 : Z) : Server.t :=
  {| Server.queue := true; Server.server := true; Server._args := Some 50000;
     Server.pts := Some {| last_start_time := t0 |}; Server.alive := true |}.

(** ** The cleanup, said without the scan

    [levels] counts directory levels below [workspaces]: its own entries
    are at level 1. *)

Definition prune_entry (below : list node -> list node) (f : node) : list node :=
  match f with
  | File name _ => if temp_workspace name then [] else [f]
  | Dir name sub => [Dir name (below sub)]
  end.

(** The tree without the temp files of its first [levels] levels. *)
Fixpoint prune (levels : nat) (es : list node) : list node :=
  match levels with
  | O => es
  | S m => flat_map (prune_entry (prune m)) es
  end.

Definition temp_entry (below : path -> list node -> list path)
  (directory : path) (f : node) : list path :=
  match f with
  | File name _ => if temp_workspace name then [directory ++ [name]] else []
  | Dir name sub => below (directory ++ [name]) sub
  end.

(** The temp files of the first [levels] levels, in scan order. *)
Fixpoint temp_files (levels : nat) (directory : path) (es : list node)
  : list path :=
  match levels with
  | O => []
  | S m => flat_map (temp_entry (temp_files m) directory) es
  end.

Definition clean_entry (m : nat) (below : list node -> bool) (f : node) : bool :=
  match f with
  | File _ _ => true
  | Dir name sub =>
      match m with
      | O => negb (temp_workspace name)
      | S _ => below sub
      end
  end.

(** No directory of level [levels] has the name of a temp file. *)
Fixpoint clean (levels : nat) (es : list node) : bool :=
  match levels with
  | O => true
  | S m => forallb (clean_entry m (clean m)) es
  end.

(** A scan agrees with what is said of it: the removals done are the
    first of those expected, the scan completes exactly on clean input,
    and a complete scan leaves the expected entries. *)
Definition scan_ok (s : Scan) (kept_spec : list node) (evs_spec : list Event)
  (clean_spec : bool) : Prop :=
  let '(r, kept, evs) := s in
  (exists rest, evs_spec = evs ++ rest) /\
  (r = None <-> clean_spec = true) /\
  (r = None -> kept = kept_spec /\ evs = evs_spec).

(** The files and the directories of a tree, by path. *)
Fixpoint files_of (directory : path) (f : node) : list path :=
  match f with
  | File name _ => [directory ++ [name]]
  | Dir name sub => flat_map (files_of (directory ++ [name])) sub
  end.

Definition all_files (directory : path) (es : list node) : list path :=
  flat_map (files_of directory) es.

Fixpoint dirs_of (directory : path) (f : node) : list path :=
  match f with
  | File _ _ => []
  | Dir name sub =>
      (directory ++ [name]) :: flat_map (dirs_of (directory ++ [name])) sub
  end.

Definition all_dirs (directory : path) (es : list node) : list path :=
  flat_map (dirs_of directory) es.

(** A path names a temp file within [levels] levels below [base]. *)
Definition doomed_under (base : path) (levels : nat) (p : path) : bool :=
  temp_workspace (List.last p "") && (length p <=? length base + levels)%nat.

(** What [delete_workspaces] is to remove: temp files of the first four
    levels. *)
Definition doomed (p : path) : bool := doomed_under [] 4 p.

(** ** The recovery, said by its effects *)

Definition named (name : string) (w : World) : list Process :=
  List.filter (fun ps => String.eqb (Name ps) name) (procs w).

(** The processes of that name whose [Terminate] goes through. *)
Definition killable (name : string) (w : World) : list Process :=
  List.filter (fun ps => negb (gone ps)) (named name w).

Definition kill_event (ps : Process) : Event :=
  EvTerminate (Name ps) (ProcessId ps).

Definition reap (dead : list Process) (table : list Process) : list Process :=
  fold_left
    (fun acc ps => List.filter (fun q => negb (ProcessId q =? ProcessId ps)) acc)
    dead table.

(** The world after [kill_all_processes(name)]. *)
Definition killed (name : string) (w : World) : World :=
  set_trace (trace w ++ List.map kill_event (killable name w))
    (set_procs (reap (killable name w) (procs w)) w).

(** The world after a scan of the workspaces. *)
Definition swept (es' : list node) (evs : list Event) (w : World) : World :=
  set_trace (trace w ++ evs) (set_workspaces (Some es') w).

Definition not_removable : exn := OSError "remove: is a directory".

Definition ykushcmd (w : World) : string :=
  if win32 w then "ykushcmd.exe" else "ykushcmd".

Definition power (w : World) (switch : string) (port : string) : Event :=
  EvPopen [ykushcmd w; switch; port].

(** Every port off, five seconds, every port on, two seconds. *)
Definition replug (w : World) (ykush_ports : list string) : list Event :=
  List.map (power w "-d") ykush_ports ++ [EvSleep 5] ++
  List.map (power w "-u") ykush_ports ++ [EvSleep 2].

(** What a complete recovery does, in order: the engine processes, the
    browser processes, the temp files, and, when ports are given, the
    dongle. *)
Definition recovery_trace (ykush_ports : list string) (w : World) : list Event :=
  List.map kill_event (killable "PTS.exe" w) ++
  List.map kill_event (killable "Fts.exe" (killed "PTS.exe" w)) ++
  (match workspaces w with
   | Some es => List.map EvRemove (List.filter doomed (all_files [] es))
   | None => []
   end) ++
  (match ykush_ports with
   | [] => []
   | _ => replug w ykush_ports
   end).

(** The part of the world the recovery does not touch. *)
Definition same_program (w w' : World) : Prop :=
  heap w' = heap w /\ queue w' = queue w /\ superguard w' = superguard w /\
  superguard_started w' = superguard_started w /\ now w' = now w.

(** Temp files at levels 1, 2, 4 and 5, other files, and a directory
    with the name of a temp file at level 1. *)
Definition deep_tree : list node :=
  [ File "temp_a.pqw6" "a"; File "notes.txt" "n";
    Dir "w1"
      [ File "temp_b.pqw6" "b";
        Dir "w2"
          [ Dir "w3"
              [ File "temp_d.pqw6" "d"; File "keep.pqw6" "k";
                Dir "w4" [ File "temp_e.pqw6" "e" ] ] ] ];
    Dir "temp_dir.pqw6" [ File "inside.txt" "i" ] ].

(** A directory with the name of a temp file at level 4, scanned before a
    temp file of the same directory. *)
Definition blocked_tree : list node :=
  [ Dir "w1" [ Dir "w2" [ Dir "w3"
      [ Dir "temp_x.pqw6" []; File "temp_y.pqw6" "y" ] ] ] ].

Definition busy_procs : list Process :=
  [ {| Name := "PTS.exe"; ProcessId := 11; gone := false |};
    {| Name := "python.exe"; ProcessId := 12; gone := false |};
    {| Name := "Fts.exe"; ProcessId := 13; gone := true |};
    {| Name := "Fts.exe"; ProcessId := 14; gone := false |} ].

Definition busy_world : World :=
  set_procs busy_procs (set_workspaces (Some deep_tree) world0).

(** ** The supervisor *)

(** The text built from the queue. *)
Definition causes (q : list string) : string :=
  fold_left (fun exceptions e => (exceptions ++ e ++ nl)%string) q "".

(** A pass sees a failure: the fleet raised something other than Ctrl-C
    and left the world [w1], or it returned and causes were queued, which
    the pass takes off the queue. *)
Definition failure (body : M unit) (w w1 : World) : Prop :=
  (exists e, e <> KeyboardInterrupt /\ body w = (Raise e, w1)) \/
  (exists w0, body w = (Ok tt, w0) /\ queue w0 <> [] /\ w1 = set_queue [] w0).

(** The world after [superguard.clear()]. *)
Definition cleared (w : World) : World :=
  set_superguard
    (SuperGuard.set_was_timeout false (SuperGuard.set_servers [] (superguard w))) w.

(** The [except BaseException] branch of the main loop. *)
Definition on_failure (_args : Namespace.t) : M Flow :=
  was_timeout <- gets (fun w => SuperGuard.was_timeout (superguard w)) ;;
  if Namespace.recovery _args || was_timeout then
    SuperGuard_clear ;;
    recover_pts (Namespace.ykush _args) ;;
    ret Again
  else raise (SystemExit 16).

(** How a pass of the main loop can end. *)
Definition pass_result (r : result Flow) : Prop :=
  r = Ok Break \/ r = Ok Again \/ r = Raise (SystemExit 14) \/
  r = Raise (SystemExit 16) \/ (exists what, r = Raise (OSError what)) \/
  r = Running.

(** ** Runs of the threads *)

Definition no_clear (s : Step) : bool :=
  match s with Recover _ => false | _ => true end.

(** The steps in which the engine handle is made or begins new work. *)
Definition engine_step (s : Step) : bool :=
  match s with Work _ | Started _ _ => true | _ => false end.

(** The test of [SuperGuard.run] on which a pass fires:
    [idle_num == len(self.servers) and idle_num != 0]. *)
Definition fire_test (w : World) : bool :=
  let srvs := SuperGuard.servers (superguard w) in
  let idle_num := length (List.filter (idle w) srvs) in
  (idle_num =? length srvs)%nat && negb (idle_num =? 0)%nat.

(** The passes of the watchdog that fire along a run. *)
Fixpoint fires (steps : list Step) (w : World) : nat :=
  match steps with
  | [] => 0%nat
  | s :: rest =>
      match step s w with
      | Some w' =>
          (match s with
           | Guard => if fire_test w then 1 else 0
           | _ => 0
           end + fires rest w')%nat
      | None => 0%nat
      end
  end.

(** The workers that are made and given to [add_server] along a run. *)
Definition registers (steps : list Step) : nat :=
  length (List.filter (fun s => match s with Register _ => true | _ => false end) steps).

(** One when a worker is registered, zero when the registry is empty. *)
Definition armed (w : World) : nat :=
  match SuperGuard.servers (superguard w) with
  | [] => 0%nat
  | _ => 1%nat
  end.

(** The second worker is registered after the watchdog has fired for
    the first; nobody calls [clear()]. *)
Definition late_worker : list Step :=
  [ Register (Some 50000); Started 0 {| last_start_time := 0 |}; Tick 11; Guard;
    Register (Some 50001); Started 1 {| last_start_time := 11 |}; Tick 11; Guard ].

(** One worker, idle for longer than the timeout of 10. *)
Definition one_idle_worker : list Step :=
  [ Register (Some 50000); Started 0 {| last_start_time := 0 |}; Tick 11 ].

(** ** A fire and [clear()], statement by statement

    [SuperGuard.run] and [SuperGuard.clear] take no lock, so either
    thread can be between two of these statements while the other runs.
    - [fire_terminate]: [for srv in self.servers:
      srv.terminate('Superguard timeout')] of [run];
    - [fire_set_flag]: [self.was_timeout = True] of [run];
    - [fire_clear]: [self.servers.clear()] of [run];
    - [clear_servers]: [self.servers.clear()] of [clear];
    - [clear_flag]: [self.was_timeout = False] of [clear]. *)
Inductive Stmt :=
| fire_terminate
| fire_set_flag
| fire_clear
| clear_servers
| clear_flag.

Definition stmt (s : Stmt) : M unit :=
  match s with
  | fire_terminate =>
      srvs <- gets (fun w => SuperGuard.servers (superguard w)) ;;
      for_ srvs (fun srv => Server_terminate srv "Superguard timeout")
  | fire_set_flag =>
      modify (fun w =>
        set_superguard (SuperGuard.set_was_timeout true (superguard w)) w)
  | fire_clear | clear_servers =>
      modify (fun w =>
        set_superguard (SuperGuard.set_servers [] (superguard w)) w)
  | clear_flag =>
      modify (fun w =>
        set_superguard (SuperGuard.set_was_timeout false (superguard w)) w)
  end.

(** The statements of a pass that fires, before its sleep, and those of
    [clear()]. *)
Definition the_fire : list Stmt := [fire_terminate; fire_set_flag; fire_clear].

Definition the_clear : list Stmt := [clear_servers; clear_flag].

(** The ways two threads can take turns: each keeps its own order. *)
Inductive interleaved {A : Type} : list A -> list A -> list A -> Prop :=
| interleaved_nil : interleaved [] [] []
| interleaved_left (x : A) (l1 l2 l : list A) :
    interleaved l1 l2 l -> interleaved (x :: l1) l2 (x :: l)
| interleaved_right (x : A) (l1 l2 l : list A) :
    interleaved l1 l2 l -> interleaved l1 (x :: l2) (x :: l).

(** [clear()] runs, whole, when the fire has told the workers and has
    not set the flag yet. *)
Definition straddled : list Stmt :=
  [fire_terminate; clear_servers; clear_flag; fire_set_flag; fire_clear].

(** ** The arguments *)

Definition in_range (srv_port : Z) : bool :=
  (49152 <=? srv_port) && (srv_port <=? 65535).

(** The arguments as [check_args] leaves them. *)
Definition checked (arg : Namespace.t) (ports : list Z) : Namespace.t :=
  {| Namespace.srv_port :=
       match ports with [p] => PortInt p | _ => PortList ports end;
     Namespace.recovery := Namespace.recovery arg;
     Namespace.superguard := 60 * Namespace.superguard arg;
     Namespace.ykush := Namespace.ykush arg |}.

(** ** Sample runs *)

(** Arguments for two ports, no recovery, and the given timeout in
    minutes. *)
Definition two_ports (minutes : Z) : Namespace.t :=
  {| Namespace.srv_port := PortList [50000; 50001]; Namespace.recovery := false;
     Namespace.superguard := minutes; Namespace.ykush := [] |}.

(** Two workers come up and then do nothing for longer than any timeout. *)
Definition silent_run : list Step :=
  [ Register (Some 50000); Register (Some 50001);
    Started 0 {| last_start_time := 0 |}; Started 1 {| last_start_time := 0 |};
    Tick 100000; Work 0; Tick 100000; Down; Stop 0; Stop 1; Collect;
    Recover []; Tick 100000 ].

Definition fleet_of_two : list Step :=
  [ Register (Some 50000); Register (Some 50001);
    Started 0 {| last_start_time := 0 |}; Started 1 {| last_start_time := 0 |} ].

(** Five time units in each of which worker 0 begins new work, then a
    pass of the watchdog. *)
Definition five_busy_units : list Step :=
  concat (repeat [Tick 1; Work 0] 5) ++ [Guard].

(** ** The workspace tree, read and changed *)

(** [os.walk] from a directory whose entries are [es]. *)
Definition walk_dir (topdown : bool) (top : path) (es : list node)
  : list (path * list string * list string) :=
  let below := flat_map (walk_node topdown top) es in
  if topdown then (top, dirnames es, filenames es) :: below
  else below ++ [(top, dirnames es, filenames es)].

(** [q] is [p] or lies below it. *)
Definition below (p q : path) : Prop := exists r, q = p ++ r.

Fixpoint distinct (names : list string) : bool :=
  match names with
  | [] => true
  | n :: rest => negb (existsb (String.eqb n) rest) && distinct rest
  end.

(** No directory holds two entries of one name, as in a file system. *)
Fixpoint well_named (f : node) : bool :=
  match f with
  | File _ _ => true
  | Dir _ sub => distinct (List.map node_name sub) && forallb well_named sub
  end.

Definition well_named_tree (es : list node) : bool :=
  distinct (List.map node_name es) && forallb well_named es.

(** What is at a path: a file, a directory, or nothing. *)
Inductive kind := IsFile (data : string) | IsDir | Nothing.

Definition kind_of (o : option node) : kind :=
  match o with
  | Some (File _ data) => IsFile data
  | Some (Dir _ _) => IsDir
  | None => Nothing
  end.

(** A tree with the directory [logs] at the top and, scanned before it,
    inside [old]. *)
Definition twice_named : list node :=
  [ Dir "old" [ Dir "logs" [ File "deep.txt" "d" ] ];
    Dir "logs" [ File "top.txt" "t" ] ].


(** Two registered workers long after the start: the first is up and has
    done nothing since time 0, the engine of the second is not there
    yet. *)
Definition half_started : World :=
  set_now 100000
    (set_superguard (SuperGuard.set_servers [0%nat; 1%nat] (SuperGuard.__init__ 10))
       (set_heap [worker_up 0; Server.__init__ (Some 50001) true] world0)).

(** ** What the other threads may do while [multi_main] sleeps *)

(** They make no worker and take none away, they leave the port and the
    queue of every worker and the registry of the watchdog as they are,
    and nothing is raised in the sleeping thread. *)
Definition keeps_workers (env : M unit) : Prop :=
  forall w, exists w', env w = (Ok tt, w') /\
    length (heap w') = length (heap w) /\
    SuperGuard.servers (superguard w') = SuperGuard.servers (superguard w) /\
    forall i, Server._args (heap w' !!! i) = Server._args (heap w !!! i) /\
              Server.queue (heap w' !!! i) = Server.queue (heap w !!! i).

(** They only add to the queue, and nothing is raised in the sleeping
    thread. *)
Definition only_adds_causes (env : M unit) : Prop :=
  forall w, exists w' more, env w = (Ok tt, w') /\ queue w' = queue w ++ more.

Definition dead (w : World) (srv : nat) : bool :=
  negb (Server.alive (heap w !!! srv)).

(** The clock moves on by five units. *)
Definition five_later : M unit := modify (fun w => set_now (now w + 5) w).

(** A fleet of two whose second thread has ended. *)
Definition one_down : World :=
  set_heap [worker_up 0; Server.set_alive false (worker_up 0)] world0.

(** * Properties *)

(** ** Reading the heap *)

Lemma World_eta (w : World) :
  w = {| now := now w; heap := heap w; queue := queue w;
         superguard := superguard w;
         superguard_started := superguard_started w; procs := procs w;
         workspaces := workspaces w;
         ykushcmd_installed := ykushcmd_installed w; win32 := win32 w;
         trace := trace w |}.
Proof. destruct w; reflexivity. Qed.

Lemma Server_last_start_spec (srv : nat) (w : World) :
  Server_last_start srv w = (Ok (last_start_at w srv), w).
Proof.
  unfold Server_last_start, last_start_at, deref, bind, gets; simpl.
  destruct (Server.pts (heap w !!! srv)); reflexivity.
Qed.

Lemma Server_terminate_spec (srv : nat) (msg : string) (w : World) :
  Server_terminate srv msg w = (Ok tt, terminated [srv] msg w).
Proof.
  unfold Server_terminate, terminated, deref, bind, gets, try_except, put,
    emit, modify, ret, has_queue, has_endpoint; simpl.
  destruct w as [n h q g gs ps ws yk wn tr]; simpl.
  destruct (Server.server (h !!! srv)), (Server.queue (h !!! srv)); simpl;
    unfold set_trace, set_queue; simpl; rewrite ?app_nil_r; reflexivity.
Qed.

Lemma terminated_nil (msg : string) (w : World) : terminated [] msg w = w.
Proof.
  unfold terminated; simpl. destruct w; unfold set_trace, set_queue; simpl.
  rewrite !app_nil_r. reflexivity.
Qed.

Lemma terminated_cons (srv : nat) (srvs : list nat) (msg : string) (w : World) :
  terminated srvs msg (terminated [srv] msg w) = terminated (srv :: srvs) msg w.
Proof.
  unfold terminated, has_queue, has_endpoint; simpl.
  destruct w as [n h q g gs ps ws yk wn tr]; unfold set_trace, set_queue; simpl.
  destruct (Server.server (h !!! srv)), (Server.queue (h !!! srv)); simpl;
    rewrite ?app_nil_r, <- ?app_assoc; reflexivity.
Qed.

Lemma terminate_all_spec (srvs : list nat) (msg : string) (w : World) :
  for_ srvs (fun srv => Server_terminate srv msg) w = (Ok tt, terminated srvs msg w).
Proof.
  revert w; induction srvs as [|srv srvs IH]; intros w; simpl.
  - rewrite terminated_nil. reflexivity.
  - unfold bind. rewrite Server_terminate_spec, IH, terminated_cons. reflexivity.
Qed.

(** ** The watchdog pass *)

Lemma count_idle_spec (srvs : list nat) (n : nat) (w : World) :
  count_idle srvs n w = (Ok (n + length (List.filter (idle w) srvs))%nat, w).
Proof.
  revert n; induction srvs as [|srv srvs IH]; intros n; simpl.
  - unfold ret. rewrite Nat.add_0_r. reflexivity.
  - unfold bind, time_time, gets. rewrite Server_last_start_spec. simpl.
    rewrite IH. unfold idle.
    destruct (now w - last_start_at w srv >? SuperGuard.timeout (superguard w));
      simpl; repeat f_equal; lia.
Qed.

Lemma filter_length_le {A} (f : A -> bool) (l : list A) :
  (length (List.filter f l) <= length l)%nat.
Proof.
  induction l as [|x l IH]; simpl; [lia|]. destruct (f x); simpl; lia.
Qed.

Lemma filter_length_all {A} (f : A -> bool) (l : list A) :
  length (List.filter f l) = length l <-> (forall x, In x l -> f x = true).
Proof.
  induction l as [|x l IH]; simpl.
  - split; [intros _ y []|reflexivity].
  - pose proof (filter_length_le f l) as Hle.
    destruct (f x) eqn:Hx; simpl.
    + split.
      * intros H y [<-|Hy]; [assumption|]. apply IH; [lia|assumption].
      * intros H. f_equal. apply IH. intros y Hy. apply H. right; assumption.
    + split; [lia|]. intros H. specialize (H x (or_introl eq_refl)). congruence.
Qed.

(** The test of the [if] in [SuperGuard.run] holds exactly when all
    registered workers are idle and there is at least one. *)
Lemma fire_test_iff (w : World) :
  let srvs := SuperGuard.servers (superguard w) in
  let idle_num := length (List.filter (idle w) srvs) in
  (idle_num =? length srvs)%nat && negb (idle_num =? 0)%nat = true <-> all_idle w.
Proof.
  intros srvs idle_num. unfold all_idle. fold srvs.
  rewrite andb_true_iff, negb_true_iff, Nat.eqb_eq, Nat.eqb_neq.
  subst idle_num. rewrite filter_length_all. unfold idle. split.
  - intros [Hall Hne]. split.
    + intros Hnil. rewrite Hnil in Hne. simpl in Hne. congruence.
    + intros srv Hin. specialize (Hall srv Hin). lia.
  - intros [Hne Hall]. split.
    + intros srv Hin. specialize (Hall srv Hin). lia.
    + assert (Hlen : length (List.filter (idle w) srvs) = length srvs).
      { apply filter_length_all. intros srv Hin. unfold idle.
        specialize (Hall srv Hin). lia. }
      unfold idle in Hlen. rewrite Hlen. destruct srvs; simpl; congruence.
Qed.

Lemma SuperGuard_run_pass_spec (w : World) :
  SuperGuard_run_pass w =
  (Ok tt,
   if (length (List.filter (idle w) (SuperGuard.servers (superguard w)))
         =? length (SuperGuard.servers (superguard w)))%nat
      && negb (length (List.filter (idle w) (SuperGuard.servers (superguard w))) =? 0)%nat
   then fired w
   else set_trace (trace w ++ [EvSleep 5]) w).
Proof.
  unfold SuperGuard_run_pass, bind, gets. rewrite count_idle_spec. simpl.
  destruct ((length (List.filter (idle w) (SuperGuard.servers (superguard w)))
               =? length (SuperGuard.servers (superguard w)))%nat
            && negb (length (List.filter (idle w) (SuperGuard.servers (superguard w))) =? 0)%nat).
  - rewrite terminate_all_spec. reflexivity.
  - reflexivity.
Qed.

Lemma run_pass_frame (w : World) :
  snd (SuperGuard_run_pass w) = fired w \/
  snd (SuperGuard_run_pass w) = set_trace (trace w ++ [EvSleep 5]) w.
Proof.
  rewrite SuperGuard_run_pass_spec. simpl.
  match goal with |- context [if ?c then _ else _] => destruct c end; auto.
Qed.

Lemma watching_empty_registry (steps : list Step) (w w2 : World) :
  SuperGuard.servers (superguard w) = [] ->
  forallb watching steps = true ->
  exec steps w = Some w2 ->
  superguard w2 = superguard w /\ queue w2 = queue w /\
  exists k, trace w2 = trace w ++ repeat (EvSleep 5) k.
Proof.
  revert w; induction steps as [|s steps IH]; intros w Hnil Hall Hex; simpl in *.
  - inversion Hex; subst. repeat split. exists 0%nat. simpl. rewrite app_nil_r. reflexivity.
  - apply andb_true_iff in Hall as [Hs Hall].
    destruct s; simpl in Hs; try discriminate; simpl in Hex.
    + destruct (0 <=? dt); [|discriminate].
      apply IH in Hex; [|assumption|assumption]. exact Hex.
    + destruct (superguard_started w && negb (SuperGuard.end_ (superguard w)));
        [|discriminate].
      rewrite SuperGuard_run_pass_spec in Hex. rewrite Hnil in Hex. simpl in Hex.
      apply IH in Hex; [|assumption|assumption]. simpl in Hex.
      destruct Hex as (Hg & Hq & k & Ht). repeat split; try assumption.
      exists (S k). rewrite Ht. rewrite <- app_assoc. reflexivity.
    + unfold begin_work, bind, time_time, gets, deref in Hex. simpl in Hex.
      destruct (Server.pts (heap w !!! srv)); simpl in Hex;
        apply IH in Hex; try assumption; exact Hex.
Qed.

(** C1.  One pass of the watchdog loop always returns, and it terminates
    the fleet exactly when the registry is not empty and every registered
    worker has been idle (now minus [last_start()]) for more than the
    timeout: then every registered worker is sent ['Superguard timeout']
    (one queue entry per worker with a queue, one shutdown per worker with
    an endpoint, in registration order), the flag is set and the registry
    is emptied; otherwise nothing but the sleep happens.  So one worker
    that is not idle keeps the watchdog quiet, and after it fired no later
    pass fires again, whatever the clock does, until a worker is
    registered. *)
Theorem C1_watchdog_fires_iff_all_idle (w : World) :
  exists w', SuperGuard_run_pass w = (Ok tt, w') /\
    heap w' = heap w /\ now w' = now w /\
    (all_idle w ->
       SuperGuard.was_timeout (superguard w') = true /\
       SuperGuard.servers (superguard w') = [] /\
       queue w' = queue w ++
         List.map (fun _ => "Superguard timeout")
           (List.filter (has_queue w) (SuperGuard.servers (superguard w))) /\
       trace w' = trace w ++
         List.map EvShutdown
           (List.filter (has_endpoint w) (SuperGuard.servers (superguard w))) ++
         [EvSleep 5] /\
       forall steps w2,
         forallb watching steps = true -> exec steps w' = Some w2 ->
         superguard w2 = superguard w' /\ queue w2 = queue w' /\
         exists k, trace w2 = trace w' ++ repeat (EvSleep 5) k) /\
    (~ all_idle w ->
       superguard w' = superguard w /\ queue w' = queue w /\
       trace w' = trace w ++ [EvSleep 5]) /\
    ((exists srv, In srv (SuperGuard.servers (superguard w)) /\
        now w - last_start_at w srv <= SuperGuard.timeout (superguard w)) ->
       superguard w' = superguard w /\ queue w' = queue w).
Proof.
  rewrite SuperGuard_run_pass_spec. pose proof (fire_test_iff w) as Htest.
  simpl in Htest.
  destruct ((length (List.filter (idle w) (SuperGuard.servers (superguard w)))
               =? length (SuperGuard.servers (superguard w)))%nat
            && negb (length (List.filter (idle w) (SuperGuard.servers (superguard w))) =? 0)%nat)
    eqn:Hfire.
  - assert (Hidle : all_idle w) by (apply Htest; reflexivity).
    exists (fired w). split; [reflexivity|].
    split; [reflexivity|]. split; [reflexivity|]. split; [|split].
    + intros _. split; [reflexivity|]. split; [reflexivity|].
      split; [reflexivity|]. split.
      * unfold fired; simpl. rewrite <- app_assoc. reflexivity.
      * intros steps w2 Hall Hex.
        apply (watching_empty_registry steps (fired w) w2); auto.
    + intros Hn. contradiction.
    + intros (srv & Hin & Hle). destruct Hidle as [_ Hall].
      specialize (Hall srv Hin). lia.
  - assert (Hidle : ~ all_idle w).
    { intros H. apply Htest in H. congruence. }
    exists (set_trace (trace w ++ [EvSleep 5]) w). split; [reflexivity|].
    split; [reflexivity|]. split; [reflexivity|]. split; [|split].
    + intros H. contradiction.
    + intros _. repeat split.
    + intros _. repeat split.
Qed.

(** ** The two scenarios of the watchdog *)

(** Timeout 10; worker 0 is refreshed every time unit, worker 1 never:
    in 100 time units and 20 passes the watchdog does not fire. *)
Example one_busy_worker_keeps_watchdog_quiet :
  match exec (fleet_of_two ++ concat (repeat five_busy_units 20)) world0 with
  | Some w =>
      now w = 100 /\ last_start_at w 1 = 0 /\
      queue w = [] /\ SuperGuard.was_timeout (superguard w) = false /\
      SuperGuard.servers (superguard w) = [0; 1]%nat /\
      List.filter (fun e => match e with EvShutdown _ => true | _ => false end)
        (trace w) = []
  | None => False
  end.
Proof. vm_compute. repeat split; reflexivity. Qed.

(** Timeout 10; no worker is refreshed: the pass at 10 time units does
    not fire, the pass at 11 does, and the later passes do nothing. *)
Example idle_fleet_is_stopped_once :
  match exec (fleet_of_two ++ [Tick 10; Guard]) world0 with
  | Some w => queue w = [] /\ SuperGuard.was_timeout (superguard w) = false
  | None => False
  end /\
  match exec (fleet_of_two ++
              [Tick 10; Guard; Tick 1; Guard; Tick 5; Guard; Tick 500; Guard])
          world0 with
  | Some w =>
      queue w = ["Superguard timeout"; "Superguard timeout"] /\
      List.filter (fun e => match e with EvShutdown _ => true | _ => false end)
        (trace w) = [EvShutdown 0%nat; EvShutdown 1%nat] /\
      SuperGuard.was_timeout (superguard w) = true /\
      SuperGuard.servers (superguard w) = []
  | None => False
  end.
Proof. vm_compute. repeat split; reflexivity. Qed.

(** ** Server.terminate, called again and again *)

Lemma filter_repeat {A} (f : A -> bool) (x : A) (n : nat) :
  List.filter f (repeat x n) = if f x then repeat x n else [].
Proof.
  induction n as [|n IH]; simpl.
  - destruct (f x); reflexivity.
  - rewrite IH. destruct (f x); reflexivity.
Qed.

Lemma map_repeat {A B} (f : A -> B) (x : A) (n : nat) :
  List.map f (repeat x n) = repeat (f x) n.
Proof. induction n as [|n IH]; simpl; [|rewrite IH]; reflexivity. Qed.

(** C2, as the code has it.  [terminate] has no guard: each of [n] calls
    on a worker starts one shutdown thread when the endpoint exists and
    puts one entry on the queue when a queue is attached, so [n] calls
    leave [n] entries; nothing else changes. *)
Theorem C2_terminate_every_call_counts (n srv : nat) (msg : string) (w : World) :
  exists w', calls n srv msg w = (Ok tt, w') /\
    queue w' = queue w ++ (if has_queue w srv then repeat msg n else []) /\
    trace w' = trace w ++
      (if has_endpoint w srv then repeat (EvShutdown srv) n else []) /\
    heap w' = heap w /\ superguard w' = superguard w /\ now w' = now w.
Proof.
  unfold calls. rewrite terminate_all_spec.
  exists (terminated (repeat srv n) msg w). split; [reflexivity|].
  unfold terminated; simpl. rewrite !filter_repeat.
  destruct (has_queue w srv), (has_endpoint w srv); simpl;
    rewrite ?map_repeat; repeat split; reflexivity.
Qed.

(** C2 fails as stated: on a worker that is up, the second call is not a
    no-op and two calls leave two entries on the queue. *)
Lemma C2_second_call_is_not_a_noop :
  let w := set_heap [worker_up 0] world0 in
  queue (snd (calls 1 0 "Recovery request" w)) = ["Recovery request"] /\
  queue (snd (calls 2 0 "Recovery request" w)) =
    ["Recovery request"; "Recovery request"] /\
  trace (snd (calls 2 0 "Recovery request" w)) = [EvShutdown 0%nat; EvShutdown 0%nat] /\
  ~ (length (queue (snd (calls 2 0 "Recovery request" w))) <= 1)%nat /\
  snd (calls 2 0 "Recovery request" w) <> snd (calls 1 0 "Recovery request" w).
Proof.
  simpl. repeat split; try reflexivity.
  - vm_compute. lia.
  - vm_compute. discriminate.
Qed.

(** ** The workspace cleanup *)

Lemma scan_entries_ok (body : node -> Scan) (pe : node -> list node)
  (me : node -> list Event) (ce : node -> bool) :
  (forall f, scan_ok (body f) (pe f) (me f) (ce f)) ->
  forall es,
    scan_ok (scan_entries body es) (flat_map pe es) (flat_map me es) (forallb ce es).
Proof.
  intros Hbody es. induction es as [|f es IH]; simpl.
  - repeat split; try reflexivity. exists []. reflexivity.
  - specialize (Hbody f). unfold scan_ok in Hbody.
    destruct (body f) as [[r kept] evs].
    destruct Hbody as ((rest & Hpre) & Hiff & Hdone).
    destruct r as [e|].
    + split; [|split].
      * exists (rest ++ flat_map me es). rewrite Hpre, <- app_assoc. reflexivity.
      * split; [discriminate|]. intros Hc. apply andb_true_iff in Hc as [Hc _].
        apply Hiff in Hc. discriminate.
      * discriminate.
    + destruct (Hdone eq_refl) as [-> ->].
      assert (Hce : ce f = true) by (apply Hiff; reflexivity).
      rewrite Hce. simpl. unfold scan_ok in IH.
      destruct (scan_entries body es) as [[r' kept'] evs'].
      destruct IH as ((rest' & Hpre') & Hiff' & Hdone').
      split; [|split].
      * exists rest'. rewrite Hpre', <- app_assoc. reflexivity.
      * exact Hiff'.
      * intros Hr. destruct (Hdone' Hr) as [-> ->]. split; reflexivity.
Qed.

Lemma map_flat_map {A B C} (g : B -> C) (f : A -> list B) (l : list A) :
  List.map g (flat_map f l) = flat_map (fun x => List.map g (f x)) l.
Proof.
  induction l as [|x l IH]; simpl; [reflexivity|].
  rewrite List.map_app, IH. reflexivity.
Qed.

Lemma scan_depth_ok (m : nat) :
  forall directory es,
    scan_ok (scan_entries (recursive_entry directory (Z.of_nat m)) es)
      (prune (S m) es)
      (List.map EvRemove (temp_files (S m) directory es))
      (clean (S m) es).
Proof.
  induction m as [|k IH]; intros directory es.
  - simpl prune. simpl temp_files. simpl clean. rewrite map_flat_map.
    apply scan_entries_ok. intros [name data|name sub]; simpl.
    + destruct (temp_workspace name); simpl; repeat split;
        try reflexivity; exists []; reflexivity.
    + destruct (temp_workspace name); simpl.
      * split; [exists []; reflexivity|]. split; [|discriminate].
        split; discriminate.
      * repeat split; try reflexivity. exists []. reflexivity.
  - change (prune (S (S k)) es) with (flat_map (prune_entry (prune (S k))) es).
    change (temp_files (S (S k)) directory es)
      with (flat_map (temp_entry (temp_files (S k)) directory) es).
    change (clean (S (S k)) es) with (forallb (clean_entry (S k) (clean (S k))) es).
    rewrite map_flat_map.
    apply scan_entries_ok. intros [name data|name sub].
    + simpl. destruct (temp_workspace name); simpl; repeat split;
        try reflexivity; exists []; reflexivity.
    + cbn [recursive_entry prune_entry temp_entry clean_entry].
      replace (0 <? Z.of_nat (S k)) with true by (symmetry; apply Z.ltb_lt; lia).
      replace (Z.of_nat (S k) - 1) with (Z.of_nat k) by lia.
      specialize (IH (directory ++ [name]) sub). unfold scan_ok in IH.
      destruct (scan_entries (recursive_entry (directory ++ [name]) (Z.of_nat k)) sub)
        as [[r kept] evs].
      destruct IH as (Hpre & Hiff & Hdone). unfold scan_ok.
      split; [exact Hpre|]. split; [exact Hiff|].
      intros Hr. destruct (Hdone Hr) as [-> ->]. split; reflexivity.
Qed.

Lemma recursive_ok (es : list node) :
  scan_ok (recursive [] init_depth es) (prune 4 es)
    (List.map EvRemove (temp_files 4 [] es)) (clean 4 es).
Proof. exact (scan_depth_ok 3 [] es). Qed.

Lemma node_ind' (P : node -> Prop) :
  (forall name data, P (File name data)) ->
  (forall name sub, Forall P sub -> P (Dir name sub)) ->
  forall f, P f.
Proof.
  intros HF HD.
  refine (fix IH (f : node) : P f :=
            match f with
            | File name data => HF name data
            | Dir name sub =>
                HD name sub
                  ((fix go (l : list node) : Forall P l :=
                      match l with
                      | [] => @List.Forall_nil _ P
                      | x :: r => @List.Forall_cons _ P x r (IH x) (go r)
                      end) sub)
            end).
Qed.

Lemma files_of_longer (f : node) :
  forall directory p, In p (files_of directory f) ->
    (length directory < length p)%nat.
Proof.
  induction f as [name data|name sub IH] using node_ind'; intros directory p Hin.
  - simpl in Hin. destruct Hin as [<-|[]]. rewrite length_app. simpl. lia.
  - simpl in Hin. apply in_flat_map in Hin as (g & Hg & Hp).
    rewrite List.Forall_forall in IH. specialize (IH g Hg _ _ Hp).
    rewrite length_app in IH. simpl in IH. lia.
Qed.

Lemma filter_flat_map {A B} (f : B -> bool) (g : A -> list B) (l : list A) :
  List.filter f (flat_map g l) = flat_map (fun x => List.filter f (g x)) l.
Proof.
  induction l as [|x l IH]; simpl; [reflexivity|].
  rewrite List.filter_app, IH. reflexivity.
Qed.

Lemma filter_none {A} (f : A -> bool) (l : list A) :
  (forall x, In x l -> f x = false) -> List.filter f l = [].
Proof.
  induction l as [|x l IH]; intros H; simpl; [reflexivity|].
  rewrite (H x (or_introl eq_refl)). apply IH. intros y Hy. apply H. right; exact Hy.
Qed.

Lemma filter_every {A} (f : A -> bool) (l : list A) :
  (forall x, In x l -> f x = true) -> List.filter f l = l.
Proof.
  induction l as [|x l IH]; intros H; simpl; [reflexivity|].
  rewrite (H x (or_introl eq_refl)). f_equal. apply IH. intros y Hy. apply H. right; exact Hy.
Qed.

Lemma doomed_under_zero (directory : path) (es : list node) (p : path) :
  In p (all_files directory es) -> doomed_under directory 0 p = false.
Proof.
  intros Hin. apply in_flat_map in Hin as (f & _ & Hp).
  apply files_of_longer in Hp. unfold doomed_under.
  replace (length p <=? length directory + 0)%nat with false.
  - apply andb_false_r.
  - symmetry. apply Nat.leb_gt. lia.
Qed.

Lemma doomed_under_step (directory : path) (name : string) (m : nat) (p : path) :
  doomed_under (directory ++ [name]) m p = doomed_under directory (S m) p.
Proof.
  unfold doomed_under. rewrite length_app. simpl.
  replace (length directory + 1 + m)%nat with (length directory + S m)%nat by lia.
  reflexivity.
Qed.

Lemma doomed_under_file (directory : path) (name : string) (m : nat) :
  doomed_under directory (S m) (directory ++ [name]) = temp_workspace name.
Proof.
  unfold doomed_under. rewrite List.last_last, length_app. simpl.
  replace (length directory + 1 <=? length directory + S m)%nat with true.
  - apply andb_true_r.
  - symmetry. apply Nat.leb_le. lia.
Qed.

(** [temp_files] lists the doomed files, [prune] keeps the others and
    every directory. *)
Lemma temp_files_doomed (levels : nat) :
  forall directory es,
    temp_files levels directory es =
    List.filter (doomed_under directory levels) (all_files directory es).
Proof.
  induction levels as [|m IH]; intros directory es.
  - simpl. symmetry. apply filter_none. intros p. apply doomed_under_zero.
  - simpl. unfold all_files. rewrite filter_flat_map.
    apply flat_map_ext. intros [name data|name sub]; simpl.
    + rewrite doomed_under_file. destruct (temp_workspace name); reflexivity.
    + rewrite IH. unfold all_files. apply List.filter_ext. intros p.
      apply doomed_under_step.
Qed.

Lemma prune_files (levels : nat) :
  forall directory es,
    all_files directory (prune levels es) =
    List.filter (fun p => negb (doomed_under directory levels p))
      (all_files directory es).
Proof.
  induction levels as [|m IH]; intros directory es.
  - simpl. symmetry. apply filter_every. intros p Hp.
    rewrite (doomed_under_zero directory es p Hp). reflexivity.
  - simpl. unfold all_files.
    induction es as [|f es IHes]; simpl; [reflexivity|].
    rewrite flat_map_app, List.filter_app. f_equal; [|exact IHes].
    destruct f as [name data|name sub]; simpl.
    + rewrite doomed_under_file. destruct (temp_workspace name); reflexivity.
    + rewrite app_nil_r. fold (all_files (directory ++ [name]) (prune m sub)).
      rewrite IH. unfold all_files. apply List.filter_ext. intros p.
      rewrite doomed_under_step. reflexivity.
Qed.

Lemma prune_dirs (levels : nat) :
  forall directory es,
    all_dirs directory (prune levels es) = all_dirs directory es.
Proof.
  induction levels as [|m IH]; intros directory es; [reflexivity|].
  simpl. unfold all_dirs.
  induction es as [|f es IHes]; simpl; [reflexivity|].
  rewrite flat_map_app. f_equal; [|exact IHes].
  destruct f as [name data|name sub]; simpl.
  - destruct (temp_workspace name); reflexivity.
  - rewrite app_nil_r. f_equal. apply IH.
Qed.

(** ** The recovery steps, one by one *)

Lemma kill_loop_spec (pss : list Process) (w : World) :
  for_ pss (fun ps => try_except (Terminate ps) (fun exc => ret tt)) w =
  (Ok tt,
   set_trace (trace w ++ List.map kill_event (List.filter (fun ps => negb (gone ps)) pss))
     (set_procs (reap (List.filter (fun ps => negb (gone ps)) pss) (procs w)) w)).
Proof.
  revert w; induction pss as [|ps pss IH]; intros w; simpl.
  - unfold ret. destruct w; unfold set_trace, set_procs; simpl.
    rewrite app_nil_r. reflexivity.
  - unfold bind, try_except, Terminate.
    destruct (gone ps); simpl.
    + rewrite IH. reflexivity.
    + unfold bind, modify, emit, modify. simpl. rewrite IH.
      destruct w; unfold set_trace, set_procs, kill_event; simpl.
      rewrite <- app_assoc. reflexivity.
Qed.

Lemma kill_all_processes_spec (name : string) (w : World) :
  kill_all_processes name w = (Ok tt, killed name w).
Proof.
  unfold kill_all_processes, bind, Win32_Process, gets.
  rewrite kill_loop_spec. reflexivity.
Qed.


Lemma scan_entries_raises (body : node -> Scan) (P : exn -> Prop) (es : list node) :
  List.Forall (fun f => forall e kept evs, body f = (Some e, kept, evs) -> P e) es ->
  forall e kept evs, scan_entries body es = (Some e, kept, evs) -> P e.
Proof.
  induction 1 as [|f es Hf Hes IH]; intros e kept evs Hscan; simpl in Hscan.
  - discriminate.
  - destruct (body f) as [[r k] ev] eqn:Hb. destruct r as [e'|].
    + inversion Hscan; subst. eapply Hf. reflexivity.
    + destruct (scan_entries body es) as [[r' k'] ev'] eqn:Hs.
      inversion Hscan; subst. eapply IH. reflexivity.
Qed.

Lemma recursive_entry_raises (f : node) :
  forall directory depth e kept evs,
    recursive_entry directory depth f = (Some e, kept, evs) -> e = not_removable.
Proof.
  induction f as [name data|name sub IH] using node_ind';
    intros directory depth e kept evs H; simpl in H.
  - destruct (temp_workspace name); discriminate.
  - destruct (0 <? depth).
    + destruct (scan_entries (recursive_entry (directory ++ [name]) (depth - 1)) sub)
        as [[r k] ev] eqn:Hs.
      inversion H; subst.
      eapply (scan_entries_raises _ (fun e => e = not_removable) sub); [|exact Hs].
      rewrite List.Forall_forall in IH. apply List.Forall_forall.
      intros g Hg e' k' ev' Hg'. eapply IH; eassumption.
    + destruct (temp_workspace name); inversion H; reflexivity.
Qed.

Lemma recursive_raises (directory : path) (depth : Z) (es : list node) e kept evs :
  recursive directory depth es = (Some e, kept, evs) -> e = not_removable.
Proof.
  unfold recursive.
  apply (scan_entries_raises _ (fun e => e = not_removable)).
  apply List.Forall_forall. intros f _ e' k' ev'. apply recursive_entry_raises.
Qed.

Lemma delete_workspaces_missing (w : World) :
  workspaces w = None ->
  delete_workspaces w = (Raise (OSError "scandir: no such directory"), w).
Proof. intros H. unfold delete_workspaces. rewrite H. reflexivity. Qed.

Lemma delete_workspaces_spec (w : World) (es : list node) :
  workspaces w = Some es ->
  exists r es' evs,
    delete_workspaces w = (r, swept es' evs w) /\
    (exists rest, List.map EvRemove (temp_files 4 [] es) = evs ++ rest) /\
    (r = Ok tt <-> clean 4 es = true) /\
    (r = Ok tt -> es' = prune 4 es /\ evs = List.map EvRemove (temp_files 4 [] es)) /\
    (r = Ok tt \/ r = Raise not_removable).
Proof.
  intros H. unfold delete_workspaces. rewrite H.
  pose proof (recursive_ok es) as Hok. unfold scan_ok in Hok.
  destruct (recursive [] init_depth es) as [[r es'] evs] eqn:Hrec.
  destruct Hok as (Hpre & Hiff & Hdone).
  destruct r as [e|].
  - apply recursive_raises in Hrec. subst e.
    exists (Raise not_removable), es', evs. split; [reflexivity|].
    split; [exact Hpre|]. split; [|split].
    + split; [discriminate|]. intros Hc. apply Hiff in Hc. discriminate.
    + discriminate.
    + right; reflexivity.
  - exists (Ok tt), es', evs. split; [reflexivity|].
    split; [exact Hpre|]. split; [|split].
    + split; [intros _; apply Hiff; reflexivity|reflexivity].
    + intros _. apply Hdone. reflexivity.
    + left; reflexivity.
Qed.

Lemma Popen_all (cmd switch : string) (ports : list string) (w : World) :
  ykushcmd_installed w = true ->
  for_ ports (fun port => Popen [cmd; switch; port]) w =
  (Ok tt, set_trace (trace w ++ List.map (fun port => EvPopen [cmd; switch; port]) ports) w).
Proof.
  revert w; induction ports as [|port ports IH]; intros w Hi; simpl.
  - unfold ret. destruct w; unfold set_trace; simpl. rewrite app_nil_r. reflexivity.
  - unfold bind, Popen, bind, gets. rewrite Hi. unfold emit, modify.
    rewrite IH by (simpl; exact Hi).
    destruct w; unfold set_trace; simpl. rewrite <- app_assoc. reflexivity.
Qed.

Lemma turn_on_dongle_installed (ports : list string) (w : World) :
  ykushcmd_installed w = true ->
  turn_on_dongle ports w = (Ok tt, set_trace (trace w ++ replug w ports) w).
Proof.
  intros Hi. unfold turn_on_dongle, bind at 1, gets.
  unfold bind at 1. unfold replug, power, ykushcmd.
  assert (Hcmd : (if win32 w then ("ykushcmd" ++ ".exe")%string else "ykushcmd")
                 = (if win32 w then "ykushcmd.exe" else "ykushcmd")) by reflexivity.
  rewrite Hcmd. rewrite Popen_all by exact Hi.
  unfold bind, sleep, emit, modify.
  rewrite Popen_all by (simpl; exact Hi).
  destruct w; unfold set_trace; simpl. rewrite <- !app_assoc. reflexivity.
Qed.

Lemma turn_on_dongle_missing (port : string) (ports : list string) (w : World) :
  ykushcmd_installed w = false ->
  turn_on_dongle (port :: ports) w = (Raise (OSError "Popen: no such file"), w).
Proof.
  intros Hi. unfold turn_on_dongle, bind, gets. simpl.
  unfold bind, Popen, bind, gets. rewrite Hi. reflexivity.
Qed.

(** [recover_pts], step after step. *)
Lemma recover_pts_steps (ports : list string) (w : World) :
  recover_pts ports w =
  match delete_workspaces (killed "Fts.exe" (killed "PTS.exe" w)) with
  | (Ok _, w3) =>
      match ports with
      | [] => (Ok tt, w3)
      | _ => turn_on_dongle ports w3
      end
  | (Raise e, w3) => (Raise e, w3)
  | (Running, w3) => (Running, w3)
  end.
Proof.
  unfold recover_pts, bind. rewrite !kill_all_processes_spec.
  destruct (delete_workspaces (killed "Fts.exe" (killed "PTS.exe" w))) as [[v|e|] w3];
    try reflexivity.
  destruct ports; reflexivity.
Qed.

(** Equal up to the bracketing of [++] and to empty lists. *)
Ltac app_eq := rewrite <- ?app_assoc, ?app_nil_r; cbn [app]; reflexivity.

Lemma recover_pts_spec (ports : list string) (w : World) :
  exists r w' done rest,
    recover_pts ports w = (r, w') /\
    trace w' = trace w ++ done /\
    recovery_trace ports w = done ++ rest /\
    (r = Ok tt -> rest = []) /\
    (r = Ok tt <->
       (exists es, workspaces w = Some es /\ clean 4 es = true) /\
       (ports = [] \/ ykushcmd_installed w = true)) /\
    (r = Ok tt \/ exists what, r = Raise (OSError what)) /\
    same_program w w' /\
    (r = Ok tt -> exists es, workspaces w = Some es /\ workspaces w' = Some (prune 4 es)).
Proof.
  rewrite recover_pts_steps. unfold recovery_trace, doomed.
  set (k1 := List.map kill_event (killable "PTS.exe" w)).
  set (k2 := List.map kill_event (killable "Fts.exe" (killed "PTS.exe" w))).
  set (w2 := killed "Fts.exe" (killed "PTS.exe" w)).
  assert (Ht2 : trace w2 = trace w ++ k1 ++ k2).
  { subst w2 k1 k2. simpl. rewrite <- app_assoc. reflexivity. }
  assert (Hws : workspaces w2 = workspaces w) by reflexivity.
  assert (Hyk : ykushcmd_installed w2 = ykushcmd_installed w) by reflexivity.
  assert (Hwin : win32 w2 = win32 w) by reflexivity.
  assert (Hsame : same_program w w2) by (repeat split).
  clearbody w2 k1 k2.
  destruct (workspaces w) as [es|] eqn:Hw.
  - destruct (delete_workspaces_spec w2 es Hws)
      as (r & es' & evs & Hdel & (rest0 & Hpre) & Hiff & Hdone & Hshape).
    rewrite Hdel. rewrite temp_files_doomed in Hpre, Hdone.
    set (rm := List.map EvRemove (List.filter (doomed_under [] 4) (all_files [] es))) in *.
    destruct Hshape as [-> | ->].
    + destruct (Hdone eq_refl) as [-> ->].
      assert (Hclean : clean 4 es = true) by (apply Hiff; reflexivity).
      destruct ports as [|port ports].
      * exists (Ok tt), (swept (prune 4 es) rm w2), (k1 ++ k2 ++ rm), [].
        split; [reflexivity|]. split; [cbn [swept set_trace trace]; rewrite Ht2; app_eq|].
        split; [app_eq|]. split; [reflexivity|]. split.
        { split; [|reflexivity]. intros _. split; [exists es; auto|left; reflexivity]. }
        split; [left; reflexivity|]. split; [exact Hsame|].
        intros _. exists es. split; reflexivity.
      * destruct (ykushcmd_installed w) eqn:Hi.
        -- rewrite turn_on_dongle_installed by exact Hyk.
           eexists (Ok tt), _, (k1 ++ k2 ++ rm ++ replug w (port :: ports)), [].
           split; [reflexivity|]. split.
           { unfold replug, power, ykushcmd.
             cbn [swept set_trace set_workspaces trace win32].
             rewrite Hwin, Ht2. app_eq. }
           split; [app_eq|]. split; [reflexivity|]. split.
           { split; [|reflexivity]. intros _. split; [exists es; auto|right; reflexivity]. }
           split; [left; reflexivity|]. split; [exact Hsame|].
           intros _. exists es. split; reflexivity.
        -- rewrite turn_on_dongle_missing by exact Hyk.
           eexists (Raise (OSError "Popen: no such file")), _,
             (k1 ++ k2 ++ rm), (replug w (port :: ports)).
           split; [reflexivity|].
           split; [cbn [swept set_trace trace]; rewrite Ht2; app_eq|].
           split; [app_eq|]. split; [discriminate|]. split.
           { split; [discriminate|]. intros [_ [H|H]]; discriminate. }
           split; [right; eexists; reflexivity|]. split; [exact Hsame|].
           discriminate.
    + eexists (Raise not_removable), _, (k1 ++ k2 ++ evs),
        (rest0 ++ match ports with [] => [] | _ => replug w ports end).
      split; [reflexivity|].
      split; [cbn [swept set_trace trace]; rewrite Ht2; app_eq|].
      split; [rewrite Hpre; app_eq|].
      split; [discriminate|]. split.
      { split; [discriminate|]. intros [(es0 & Hes0 & Hc) _].
        inversion Hes0; subst es0. apply Hiff in Hc. discriminate. }
      split; [right; eexists; reflexivity|]. split; [exact Hsame|].
      discriminate.
  - rewrite delete_workspaces_missing by exact Hws.
    eexists (Raise (OSError "scandir: no such directory")), w2, (k1 ++ k2),
      (match ports with [] => [] | _ => replug w ports end).
    split; [reflexivity|]. split; [rewrite Ht2; reflexivity|].
    split; [app_eq|].
    split; [discriminate|]. split.
    { split; [discriminate|]. intros [(es0 & Hes0 & _) _]. discriminate. }
    split; [right; eexists; reflexivity|]. split; [exact Hsame|].
    discriminate.
Qed.

(** ** C4: what [recover_pts] absorbs and what it lets through *)

(** C4, as the code has it.  [kill_all_processes] never raises: a
    [Terminate] that fails is absorbed and the loop goes on with the next
    process.  [recover_pts] ends by returning or by an [OSError]; it
    returns exactly when the workspaces directory exists, no directory at
    level 4 has the name of a temp file, and the ykush command can be
    started or no port is given. *)
Theorem C4_recover_pts_absorbs_terminate_only (ports : list string) (w : World) :
  (forall name, kill_all_processes name w = (Ok tt, killed name w)) /\
  (fst (recover_pts ports w) = Ok tt <->
     (exists es, workspaces w = Some es /\ clean 4 es = true) /\
     (ports = [] \/ ykushcmd_installed w = true)) /\
  (fst (recover_pts ports w) = Ok tt \/
   exists what, fst (recover_pts ports w) = Raise (OSError what)).
Proof.
  split; [intros name; apply kill_all_processes_spec|].
  destruct (recover_pts_spec ports w)
    as (r & w' & done & rest & Heq & _ & _ & _ & Hiff & Hshape & _).
  rewrite Heq. simpl. split; assumption.
Qed.

(** C4 fails as stated: [recover_pts] raises to its caller when the
    workspaces directory is missing, when a directory at the depth limit
    has the name of a temp file, and when the ykush command cannot be
    started. *)
Lemma C4_recover_pts_raises :
  fst (recover_pts [] (set_workspaces None world0)) =
    Raise (OSError "scandir: no such directory") /\
  fst (recover_pts [] (set_workspaces (Some blocked_tree) world0)) =
    Raise (OSError "remove: is a directory") /\
  fst (recover_pts ["1"]
         {| now := 0; heap := []; queue := [];
            superguard := SuperGuard.__init__ 10; superguard_started := true;
            procs := []; workspaces := Some []; ykushcmd_installed := false;
            win32 := true; trace := [] |}) =
    Raise (OSError "Popen: no such file").
Proof. repeat split; vm_compute; reflexivity. Qed.

(** ** C5: the order of the recovery *)


(** On a world with engine processes, temp files and two ports the
    recovery returns and its effects are these. *)
Example recover_pts_busy_world :
  let '(r, w') := recover_pts ["1"; "2"] busy_world in
  r = Ok tt /\
  trace w' =
    [ EvTerminate "PTS.exe" 11; EvTerminate "Fts.exe" 14;
      EvRemove ["temp_a.pqw6"]; EvRemove ["w1"; "temp_b.pqw6"];
      EvRemove ["w1"; "w2"; "w3"; "temp_d.pqw6"];
      EvPopen ["ykushcmd.exe"; "-d"; "1"]; EvPopen ["ykushcmd.exe"; "-d"; "2"];
      EvSleep 5;
      EvPopen ["ykushcmd.exe"; "-u"; "1"]; EvPopen ["ykushcmd.exe"; "-u"; "2"];
      EvSleep 2 ] /\
  trace w' = recovery_trace ["1"; "2"] busy_world /\
  List.map ProcessId (procs w') = [12; 13].
Proof. vm_compute. repeat split; reflexivity. Qed.

(** ** C6: what the cleanup removes *)

(** C6, as the code has it.  [delete_workspaces] removes regular files
    only, and only temp files ([temp_*.pqw6]) of the first four levels, in
    scan order.  It completes exactly when no directory at level 4 has
    the name of a temp file, and then it has removed all of them: the
    files left are the files that are not temp files of the first four
    levels, and every directory is left. *)
Theorem C6_delete_workspaces_removes_temp_files (w : World) (es : list node) :
  workspaces w = Some es ->
  exists r es' removed,
    delete_workspaces w = (r, swept es' (List.map EvRemove removed) w) /\
    (exists rest, List.filter doomed (all_files [] es) = removed ++ rest) /\
    (r = Ok tt <-> clean 4 es = true) /\
    (r = Ok tt ->
       removed = List.filter doomed (all_files [] es) /\
       all_files [] es' =
         List.filter (fun p => negb (doomed p)) (all_files [] es) /\
       all_dirs [] es' = all_dirs [] es).
Proof.
  intros Hws.
  destruct (delete_workspaces_spec w es Hws)
    as (r & es' & evs & Hdel & (rest0 & Hpre) & Hiff & Hdone & _).
  rewrite temp_files_doomed in Hpre, Hdone. fold doomed in Hpre, Hdone.
  apply List.map_eq_app in Hpre as (removed & rest & Hsplit & Hrem & _).
  subst evs. exists r, es', removed. split; [exact Hdel|].
  split; [exists rest; exact Hsplit|]. split; [exact Hiff|].
  intros Hr. destruct (Hdone Hr) as [-> Hmap]. split; [|split].
  - rewrite Hsplit in Hmap. rewrite List.map_app in Hmap.
    assert (Hnil : List.map EvRemove rest = []).
    { apply (app_inv_head (List.map EvRemove removed)). rewrite app_nil_r.
      symmetry. exact Hmap. }
    destruct rest; [|discriminate]. rewrite app_nil_r in Hsplit. symmetry. exact Hsplit.
  - apply prune_files.
  - apply prune_dirs.
Qed.

(** The cleanup of [deep_tree]. *)
Lemma C6_delete_workspaces_witness :
  exists r es' removed,
    delete_workspaces busy_world =
      (r, swept es' (List.map EvRemove removed) busy_world) /\
    (exists rest, List.filter doomed (all_files [] deep_tree) = removed ++ rest) /\
    (r = Ok tt <-> clean 4 deep_tree = true) /\
    (r = Ok tt ->
       removed = List.filter doomed (all_files [] deep_tree) /\
       all_files [] es' =
         List.filter (fun p => negb (doomed p)) (all_files [] deep_tree) /\
       all_dirs [] es' = all_dirs [] deep_tree).
Proof.
  apply (C6_delete_workspaces_removes_temp_files busy_world deep_tree).
  reflexivity.
Defined.

(** On [deep_tree] the temp files of levels 1, 2 and 4 go; the temp file
    of level 5, the other files and the directory named like a temp file
    stay. *)
Example delete_workspaces_deep_tree :
  let '(r, w') := delete_workspaces busy_world in
  r = Ok tt /\
  trace w' = [ EvRemove ["temp_a.pqw6"]; EvRemove ["w1"; "temp_b.pqw6"];
               EvRemove ["w1"; "w2"; "w3"; "temp_d.pqw6"] ] /\
  workspaces w' = Some
    [ File "notes.txt" "n";
      Dir "w1" [ Dir "w2" [ Dir "w3"
        [ File "keep.pqw6" "k"; Dir "w4" [ File "temp_e.pqw6" "e" ] ] ] ];
      Dir "temp_dir.pqw6" [ File "inside.txt" "i" ] ].
Proof. vm_compute. repeat split; reflexivity. Qed.

(** C6 fails as stated.  An entry named like a temp file is kept when it
    is a directory (level 1 here: the scan goes into it instead); and when
    such a directory sits at level 4, [os.remove] raises on it and a temp
    file of level 4 scanned after it is kept as well. *)
Lemma C6_temp_named_entries_are_kept :
  (let w := set_workspaces (Some [Dir "temp_old.pqw6" [File "log.txt" "l"]]) world0 in
   temp_workspace "temp_old.pqw6" = true /\
   delete_workspaces w = (Ok tt, w)) /\
  (let w := set_workspaces (Some blocked_tree) world0 in
   doomed ["w1"; "w2"; "w3"; "temp_y.pqw6"] = true /\
   delete_workspaces w = (Raise (OSError "remove: is a directory"), w)).
Proof. vm_compute. repeat split; reflexivity. Qed.

(** ** C3: the choice of the supervisor *)

Lemma SuperGuard_clear_spec (w : World) :
  SuperGuard_clear w = (Ok tt, cleared w).
Proof. reflexivity. Qed.

Lemma append_nonempty (a b : string) : b <> "" -> (a ++ b)%string <> "".
Proof. destruct a; simpl; [auto|discriminate]. Qed.

Lemma fold_causes_empty (q : list string) (acc : string) :
  fold_left (fun exceptions e => (exceptions ++ e ++ nl)%string) q acc = "" ->
  q = [] /\ acc = "".
Proof.
  revert acc; induction q as [|e q IH]; intros acc H; simpl in H.
  - split; [reflexivity|exact H].
  - apply IH in H as [_ H]. exfalso. revert H. apply append_nonempty.
    apply append_nonempty. discriminate.
Qed.

Lemma causes_empty (q : list string) : causes q = "" <-> q = [].
Proof.
  split.
  - intros H. apply fold_causes_empty in H as [H _]. exact H.
  - intros ->. reflexivity.
Qed.

Lemma collect_spec (w : World) : collect w = (Ok (causes (queue w)), set_queue [] w).
Proof. reflexivity. Qed.

Lemma main_pass_failure (_args : Namespace.t) (body : M unit) (w w1 : World) :
  failure body w w1 -> main_pass _args body w = on_failure _args w1.
Proof.
  intros [(e & Hne & Hb)|(w0 & Hb & Hq & ->)]; unfold main_pass, try_except, bind at 1;
    rewrite Hb.
  - destruct e; try reflexivity. congruence.
  - unfold bind at 1. rewrite collect_spec.
    destruct (String.eqb (causes (queue w0)) "") eqn:Heq; simpl.
    + apply String.eqb_eq, causes_empty in Heq. contradiction.
    + reflexivity.
Qed.

Lemma on_failure_recovers (_args : Namespace.t) (w1 : World) :
  Namespace.recovery _args || SuperGuard.was_timeout (superguard w1) = true ->
  exists r w2,
    recover_pts (Namespace.ykush _args) (cleared w1) = (r, w2) /\
    on_failure _args w1 =
      (match r with Ok _ => Ok Again | Raise e => Raise e | Running => Running end, w2) /\
    superguard w2 = superguard (cleared w1) /\
    (r = Ok tt \/ exists what, r = Raise (OSError what)).
Proof.
  intros Hflags. unfold on_failure, bind at 1, gets. rewrite Hflags.
  unfold bind at 1. rewrite SuperGuard_clear_spec. unfold bind.
  destruct (recover_pts_spec (Namespace.ykush _args) (cleared w1))
    as (r & w2 & done & rest & Heq & _ & _ & _ & _ & Hshape & Hsame & _).
  exists r, w2. rewrite Heq. split; [reflexivity|].
  split; [destruct r; reflexivity|].
  split; [apply Hsame|exact Hshape].
Qed.

Lemma main_pass_break (_args : Namespace.t) (body : M unit) (w w2 : World) :
  main_pass _args body w = (Ok Break, w2) <-> body w = (Ok tt, w2) /\ queue w2 = [].
Proof.
  unfold main_pass, try_except, bind at 1. split.
  - destruct (body w) as [[[]|e|] w1] eqn:Hb.
    + unfold bind at 1. rewrite collect_spec.
      destruct (String.eqb (causes (queue w1)) "") eqn:Heq; simpl.
      * intros H. inversion H; subst. apply String.eqb_eq, causes_empty in Heq.
        split; [|reflexivity].
        f_equal. destruct w1; simpl in *; subst; reflexivity.
      * intros H. exfalso. revert H. fold (on_failure _args).
        unfold on_failure, bind, gets.
        destruct (Namespace.recovery _args || SuperGuard.was_timeout
                    (superguard (set_queue [] w1))); [|discriminate].
        destruct (SuperGuard_clear (set_queue [] w1)) as [[|?|] ?]; try discriminate.
        destruct (recover_pts (Namespace.ykush _args) w0) as [[|?|] ?]; discriminate.
    + intros H. exfalso. revert H. destruct e; try discriminate;
        fold (on_failure _args); unfold on_failure, bind, gets;
        match goal with
        | |- context [if ?c then _ else _] => destruct c; [|discriminate]
        end;
        match goal with
        | |- context [SuperGuard_clear ?x] =>
            destruct (SuperGuard_clear x) as [[|?|] ?]; try discriminate
        end;
        match goal with
        | |- context [recover_pts ?a ?x] =>
            destruct (recover_pts a x) as [[|?|] ?]; discriminate
        end.
    + discriminate.
  - intros [Hb Hq]. rewrite Hb. unfold bind at 1. rewrite collect_spec, Hq. simpl.
    f_equal. destruct w2; simpl in *; subst; reflexivity.
Qed.

Lemma on_failure_fatal (_args : Namespace.t) (w1 : World) :
  Namespace.recovery _args || SuperGuard.was_timeout (superguard w1) = false ->
  on_failure _args w1 = (Raise (SystemExit 16), w1).
Proof.
  intros Hflags. unfold on_failure, bind, gets. rewrite Hflags. reflexivity.
Qed.

Lemma on_failure_result (_args : Namespace.t) (w1 : World) :
  pass_result (fst (on_failure _args w1)).
Proof.
  destruct (Namespace.recovery _args || SuperGuard.was_timeout (superguard w1)) eqn:Hf.
  - destruct (on_failure_recovers _args w1 Hf) as (r & w2 & _ & -> & _ & [->|(what & ->)]);
      simpl; unfold pass_result; eauto 10.
  - rewrite on_failure_fatal by exact Hf. simpl. unfold pass_result. auto 10.
Qed.

Lemma main_pass_result (_args : Namespace.t) (body : M unit) (w : World) :
  pass_result (fst (main_pass _args body w)).
Proof.
  destruct (body w) as [[[]|e|] w1] eqn:Hb.
  - destruct (queue w1) as [|c q] eqn:Hq.
    + assert (H : main_pass _args body w = (Ok Break, w1))
        by (apply main_pass_break; auto).
      rewrite H. left. reflexivity.
    + rewrite (main_pass_failure _args body w (set_queue [] w1)).
      * apply on_failure_result.
      * right. exists w1. rewrite Hq. repeat split; [exact Hb|discriminate].
  - destruct (exn_is_interrupt e) eqn:He.
    + destruct e; try discriminate.
      unfold main_pass, try_except, bind at 1. rewrite Hb. simpl.
      unfold pass_result. auto 10.
    + rewrite (main_pass_failure _args body w w1).
      * apply on_failure_result.
      * left. exists e. split; [intros ->; discriminate|exact Hb].
  - unfold main_pass, try_except, bind at 1. rewrite Hb. simpl.
    unfold pass_result. auto 10.
Qed.

Section Supervisor.
Variable PyPTSWithXmlRpcCallback : M PyPTS.
Variable SimpleXMLRPCServer : Z -> M unit.
Variable serve_forever : nat -> M unit.
Variable env : M unit.

Let the_fleet := fleet PyPTSWithXmlRpcCallback SimpleXMLRPCServer serve_forever env.
Let the_loop := main_loop PyPTSWithXmlRpcCallback SimpleXMLRPCServer serve_forever env.

Lemma main_loop_status_zero (_args : Namespace.t) (fuel : nat) :
forall w,
  exit_status (fst (the_loop fuel _args w)) = Some 0 ->
  exists fuel' w1 w2,
    main_pass _args (the_fleet fuel' _args) w1 = (Ok Break, w2).
Proof.
induction fuel as [|fuel IH]; intros w Hst; [discriminate|].
unfold the_loop in Hst. simpl in Hst. unfold bind in Hst.
fold the_fleet in Hst.
pose proof (main_pass_result _args (the_fleet fuel _args) w) as Hres.
destruct (main_pass _args (the_fleet fuel _args) w) as [r w1] eqn:Hpass.
simpl in Hres.
destruct Hres as [-> | [-> | [-> | [-> | [(what & ->) | ->]]]]]; simpl in Hst;
  try discriminate.
- exists fuel, w, w1. exact Hpass.
- apply (IH w1). exact Hst.
Qed.

End Supervisor.


(** ** What each step leaves alone *)

Lemma dispatch_frame (srv : nat) (c : Call) (w : World) :
  heap (snd (dispatch srv c w)) = heap w /\
  now (snd (dispatch srv c w)) = now w /\
  superguard (snd (dispatch srv c w)) = superguard w /\
  superguard_started (snd (dispatch srv c w)) = superguard_started w.
Proof.
  destruct c; simpl.
  - unfold Server_request_recovery. rewrite Server_terminate_spec. repeat split.
  - unfold Server_list_workspace_tree, get_workspace, os_walk, bind, gets, ret, raise.
    simpl. destruct (first_named workspace_dir _); repeat split.
  - repeat split.
  - unfold Server_delete_file, bind, gets, emit, modify, ret.
    destruct (isfile file_path w); simpl.
    + unfold unlink; simpl. destruct (workspaces w), file_path; repeat split.
    + destruct (isdir file_path w); simpl; [|repeat split].
      unfold unlink; simpl. destruct (workspaces w), file_path; repeat split.
Qed.

(** A step never starts the watchdog thread, and the timeout flag changes
    only when the watchdog fires (to set) or the supervisor recovers (to
    unset). *)
Lemma step_flags (s : Step) (w w' : World) :
  step s w = Some w' ->
  superguard_started w' = superguard_started w /\
  (SuperGuard.was_timeout (superguard w') = SuperGuard.was_timeout (superguard w) \/
   (s = Guard /\ superguard_started w = true /\
    SuperGuard.was_timeout (superguard w') = true) \/
   ((exists ports, s = Recover ports) /\
    SuperGuard.was_timeout (superguard w') = false)).
Proof.
  destruct s; simpl; intros H.
  - destruct (0 <=? dt); inversion H; subst. split; [reflexivity|left; reflexivity].
  - destruct (superguard_started w) eqn:Hs; simpl in H; [|discriminate].
    destruct (negb (SuperGuard.end_ (superguard w))); inversion H; subst.
    rewrite SuperGuard_run_pass_spec. simpl.
    match goal with |- context [if ?c then _ else _] => destruct c end; simpl.
    + split; [exact Hs|]. right; left. repeat split.
    + split; [exact Hs|]. left; reflexivity.
  - inversion H; subst. split; [reflexivity|left; reflexivity].
  - inversion H; subst. split; [reflexivity|left; reflexivity].
  - inversion H; subst. unfold begin_work, bind, time_time, gets, deref.
    simpl. destruct (Server.pts (heap w !!! srv)); simpl;
      (split; [reflexivity|left; reflexivity]).
  - inversion H; subst.
    destruct (dispatch_frame srv c w) as (_ & _ & Hg & Hs).
    rewrite Hg, Hs. split; [reflexivity|left; reflexivity].
  - inversion H; subst. unfold bind. rewrite Server_terminate_spec. simpl.
    split; [reflexivity|left; reflexivity].
  - inversion H; subst. split; [reflexivity|left; reflexivity].
  - inversion H; subst. rewrite Server_terminate_spec.
    split; [reflexivity|left; reflexivity].
  - inversion H; subst. split; [reflexivity|left; reflexivity].
  - inversion H; subst. unfold bind. rewrite SuperGuard_clear_spec.
    destruct (recover_pts_spec ykush_ports (cleared w))
      as (r & w2 & done & rest & Heq & _ & _ & _ & _ & _ & Hsame & _).
    rewrite Heq. simpl. destruct Hsame as (_ & _ & Hg & Hs & _).
    rewrite Hg, Hs. split; [reflexivity|]. right; right.
    split; [eexists; reflexivity|reflexivity].
Qed.

Lemma flag_stays_set (steps : list Step) :
  forall w w2,
    SuperGuard.was_timeout (superguard w) = true ->
    forallb no_clear steps = true ->
    exec steps w = Some w2 ->
    SuperGuard.was_timeout (superguard w2) = true.
Proof.
  induction steps as [|s steps IH]; intros w w2 Hset Hall Hex; simpl in *.
  - inversion Hex; subst. exact Hset.
  - apply andb_true_iff in Hall as [Hs Hall].
    destruct (step s w) as [w1|] eqn:Hstep; [|discriminate].
    apply (IH w1 w2); [|exact Hall|exact Hex].
    destruct (step_flags s w w1 Hstep) as (_ & [Hsame|[(_ & _ & Hone)|((p & ->) & _)]]).
    + rewrite Hsame. exact Hset.
    + exact Hone.
    + discriminate.
Qed.

(** What each step does to the registry of the watchdog. *)
Lemma step_registry (s : Step) (w w' : World) :
  step s w = Some w' ->
  SuperGuard.servers (superguard w') =
  match s with
  | Guard => if fire_test w then [] else SuperGuard.servers (superguard w)
  | Register _ => SuperGuard.servers (superguard w) ++ [length (heap w)]
  | Recover _ => []
  | _ => SuperGuard.servers (superguard w)
  end.
Proof.
  destruct s; simpl; intros H.
  - destruct (0 <=? dt); inversion H; reflexivity.
  - destruct (superguard_started w && negb (SuperGuard.end_ (superguard w)));
      inversion H; subst.
    rewrite SuperGuard_run_pass_spec. fold (fire_test w).
    destruct (fire_test w); reflexivity.
  - inversion H; reflexivity.
  - inversion H; reflexivity.
  - inversion H; subst. unfold begin_work, bind, time_time, gets, deref. simpl.
    destruct (Server.pts (heap w !!! srv)); reflexivity.
  - inversion H; subst. destruct (dispatch_frame srv c w) as (_ & _ & -> & _).
    reflexivity.
  - inversion H; subst. unfold bind. rewrite Server_terminate_spec. reflexivity.
  - inversion H; reflexivity.
  - inversion H; subst. rewrite Server_terminate_spec. reflexivity.
  - inversion H; reflexivity.
  - inversion H; subst. unfold bind. rewrite SuperGuard_clear_spec.
    destruct (recover_pts_spec ykush_ports (cleared w))
      as (r & w2 & done & rest & Heq & _ & _ & _ & _ & _ & Hsame & _).
    rewrite Heq. simpl. destruct Hsame as (_ & _ & -> & _). reflexivity.
Qed.

Lemma fire_test_armed (w : World) : fire_test w = true -> armed w = 1%nat.
Proof.
  intros H. apply (proj1 (fire_test_iff w)) in H. destruct H as [Hne _].
  unfold armed. destruct (SuperGuard.servers (superguard w)); congruence.
Qed.

Lemma armed_le_1 (w : World) : (armed w <= 1)%nat.
Proof. unfold armed. destruct (SuperGuard.servers (superguard w)); lia. Qed.

(** A fire uses up the registry, and only [add_server] fills it: along
    every run the watchdog fires at most once more than workers are
    registered, and not even that when the registry is empty at the
    start. *)
Lemma fires_bound (steps : list Step) :
  forall w, (fires steps w <= armed w + registers steps)%nat.
Proof.
  induction steps as [|s steps IH]; intros w; [simpl; lia|].
  cbn [fires]. destruct (step s w) as [w1|] eqn:Hstep; [|lia].
  pose proof (step_registry s w w1 Hstep) as Hreg.
  pose proof (IH w1) as Hrest.
  assert (Hsame : SuperGuard.servers (superguard w1) = SuperGuard.servers (superguard w) ->
                  armed w1 = armed w) by (unfold armed; intros ->; reflexivity).
  assert (Hnone : SuperGuard.servers (superguard w1) = [] -> armed w1 = 0%nat)
    by (unfold armed; intros ->; reflexivity).
  unfold registers in *. cbn [List.filter].
  destruct s; cbn [length];
    try (rewrite (Hsame Hreg) in Hrest; lia);
    try (rewrite (Hnone Hreg) in Hrest; lia).
  - destruct (fire_test w) eqn:Hfire.
    + rewrite (Hnone Hreg) in Hrest. rewrite (fire_test_armed w Hfire). lia.
    + rewrite (Hsame Hreg) in Hrest. lia.
  - pose proof (armed_le_1 w1). lia.
Qed.

(** [clear()] and the pass that fires are the statements of [Stmt], in
    their order. *)
Lemma SuperGuard_clear_stmts (w : World) :
  SuperGuard_clear w = for_ the_clear stmt w.
Proof. reflexivity. Qed.

Lemma firing_pass_stmts (w : World) :
  all_idle w ->
  SuperGuard_run_pass w = (for_ the_fire stmt ;; sleep 5) w.
Proof.
  intros Hidle. rewrite SuperGuard_run_pass_spec.
  apply (proj2 (fire_test_iff w)) in Hidle. cbv zeta in Hidle. rewrite Hidle.
  unfold the_fire. cbn [for_ stmt]. unfold bind at 1. unfold bind at 1.
  unfold bind at 1, gets. rewrite terminate_all_spec. reflexivity.
Qed.

Lemma straddled_interleaved : interleaved the_fire the_clear straddled.
Proof. repeat constructor. Qed.

(** When [clear()] runs between the loop of a fire and its flag, the
    flag is set and the registry empty once both are through. *)
Lemma straddled_spec (w : World) :
  for_ straddled stmt w =
  (Ok tt,
   set_superguard
     (SuperGuard.set_servers [] (SuperGuard.set_was_timeout true (superguard w)))
     (terminated (SuperGuard.servers (superguard w)) "Superguard timeout" w)).
Proof.
  unfold straddled. cbn [for_ stmt]. unfold bind at 1. unfold bind at 1.
  unfold gets. rewrite terminate_all_spec. reflexivity.
Qed.

(** C7, as the code has it.  A pass that fires leaves the registry empty
    and the flag set, and the flag stays set along every run without
    [clear()].  That does not limit the fires to one between two calls of
    [clear()]: what a fire needs is a registry that is not empty, which
    [add_server] alone gives, so along every run the watchdog fires at
    most once more than workers are registered, whether [clear()] is
    called or not.  [clear()], run on its own, empties the registry and
    unsets the flag and changes nothing else, and the recovery of the
    supervisor begins with it.  Neither [clear()] nor the fire is one
    step: each is the sequence of its statements, and when [clear()] runs
    between the loop of a fire and its [was_timeout = True], the flag is
    set and the registry empty after both. *)
Theorem C7_fired_flag_until_clear (w : World) :
  (all_idle w ->
     SuperGuard.servers (superguard (snd (SuperGuard_run_pass w))) = [] /\
     SuperGuard.was_timeout (superguard (snd (SuperGuard_run_pass w))) = true) /\
  (forall steps w2,
     SuperGuard.was_timeout (superguard w) = true ->
     forallb no_clear steps = true ->
     exec steps w = Some w2 ->
     SuperGuard.was_timeout (superguard w2) = true) /\
  (forall steps,
     (fires steps w <= armed w + registers steps)%nat /\
     (registers steps = 0%nat -> (fires steps w <= 1)%nat)) /\
  (exists w', SuperGuard_clear w = (Ok tt, w') /\
     SuperGuard.servers (superguard w') = [] /\
     SuperGuard.was_timeout (superguard w') = false /\
     SuperGuard.timeout (superguard w') = SuperGuard.timeout (superguard w) /\
     heap w' = heap w /\ queue w' = queue w /\ trace w' = trace w) /\
  (forall ports w', step (Recover ports) w = Some w' ->
     SuperGuard.servers (superguard w') = [] /\
     SuperGuard.was_timeout (superguard w') = false) /\
  (SuperGuard_clear w = for_ the_clear stmt w /\
   (all_idle w -> SuperGuard_run_pass w = (for_ the_fire stmt ;; sleep 5) w) /\
   interleaved the_fire the_clear straddled /\
   exists w', for_ straddled stmt w = (Ok tt, w') /\
     SuperGuard.servers (superguard w') = [] /\
     SuperGuard.was_timeout (superguard w') = true).
Proof.
  split; [|split; [|split; [|split; [|split]]]].
  - intros Hidle. rewrite SuperGuard_run_pass_spec.
    pose proof (fire_test_iff w) as Htest. simpl in Htest.
    apply Htest in Hidle. rewrite Hidle. simpl. split; reflexivity.
  - intros steps w2. apply flag_stays_set.
  - intros steps. pose proof (fires_bound steps w) as Hb.
    pose proof (armed_le_1 w). split; [exact Hb|lia].
  - exists (cleared w). rewrite SuperGuard_clear_spec. repeat split.
  - intros ports w' H. simpl in H. inversion H; subst.
    unfold bind. rewrite SuperGuard_clear_spec.
    destruct (recover_pts_spec ports (cleared w))
      as (r & w2 & done & rest & Heq & _ & _ & _ & _ & _ & Hsame & _).
    rewrite Heq. simpl. destruct Hsame as (_ & _ & Hg & _).
    rewrite Hg. split; reflexivity.
  - split; [apply SuperGuard_clear_stmts|].
    split; [apply firing_pass_stmts|].
    split; [apply straddled_interleaved|].
    eexists. split; [apply straddled_spec|]. split; reflexivity.
Qed.

(** C7 fails as stated.  With a timeout of 10 the watchdog fires for
    worker 0; worker 1 is registered then, [clear()] is not called, and
    the watchdog fires again for worker 1: the flag is set twice between
    two calls of [clear()].  And a [clear()] that runs while a fire is
    between its loop and its flag has been through, the registry is
    empty, and the flag is set. *)
Lemma C7_fires_twice_before_clear :
  forallb no_clear late_worker = true /\
  fires late_worker world0 = 2%nat /\
  match exec (firstn 5 late_worker) world0 with
  | Some w =>
      SuperGuard.was_timeout (superguard w) = true /\
      SuperGuard.servers (superguard w) = [1%nat]
  | None => False
  end /\
  match exec late_worker world0 with
  | Some w =>
      queue w = ["Superguard timeout"; "Superguard timeout"] /\
      List.filter (fun e => match e with EvShutdown _ => true | _ => false end)
        (trace w) = [EvShutdown 0%nat; EvShutdown 1%nat] /\
      SuperGuard.was_timeout (superguard w) = true
  | None => False
  end /\
  match exec one_idle_worker world0 with
  | Some w =>
      fire_test w = true /\
      fst (for_ straddled stmt w) = Ok tt /\
      SuperGuard.servers (superguard (snd (for_ straddled stmt w))) = [] /\
      SuperGuard.was_timeout (superguard (snd (for_ straddled stmt w))) = true
  | None => False
  end.
Proof. vm_compute. repeat split; reflexivity. Qed.

Lemma update_keeps_pts (i : nat) (f : Server.t -> Server.t) (w : World) (j : nat) :
  (forall s, Server.pts (f s) = Server.pts s) ->
  Server.pts (heap (snd (update i f w)) !!! j) = Server.pts (heap w !!! j).
Proof.
  intros Hf. unfold update, modify. simpl. rewrite list_lookup_total_insert.
  destruct (decide (i = j /\ (i < length (heap w))%nat)) as [[-> _]|_];
    [apply Hf|reflexivity].
Qed.

(** Apart from the engine handle, no step of any thread changes the
    handle or the timestamp of a worker that exists. *)
Lemma step_keeps_pts (s : Step) (w w' : World) (j : nat) :
  step s w = Some w' ->
  engine_step s = false ->
  (j < length (heap w))%nat ->
  Server.pts (heap w' !!! j) = Server.pts (heap w !!! j).
Proof.
  destruct s; simpl; intros H Hs Hj; try discriminate.
  - destruct (0 <=? dt); inversion H; reflexivity.
  - destruct (superguard_started w && negb (SuperGuard.end_ (superguard w)));
      inversion H; subst.
    destruct (run_pass_frame w) as [-> | ->]; reflexivity.
  - inversion H; subst. unfold bind, new, bind, gets, modify, ret. simpl.
    unfold update, modify, SuperGuard_add_server, modify. simpl.
    rewrite list_lookup_total_insert_ne by lia.
    rewrite lookup_total_app_l by exact Hj. reflexivity.
  - inversion H; subst. destruct (dispatch_frame srv c w) as (-> & _). reflexivity.
  - inversion H; subst. unfold bind. rewrite Server_terminate_spec.
    rewrite update_keeps_pts by reflexivity. reflexivity.
  - inversion H; reflexivity.
  - inversion H; subst. rewrite Server_terminate_spec. reflexivity.
  - inversion H; reflexivity.
  - inversion H; subst. unfold bind. rewrite SuperGuard_clear_spec.
    destruct (recover_pts_spec ykush_ports (cleared w))
      as (r & w2 & done & rest & Heq & _ & _ & _ & _ & _ & Hsame & _).
    rewrite Heq. simpl. destruct Hsame as (-> & _). reflexivity.
Qed.

(** ** C8: who writes the timestamp *)

(** C8, as the code has it.  The functions the server registers on its
    endpoint ([request_recovery], [list_workspace_tree], [copy_file],
    [delete_file]) leave every worker object as it is, [last_start_time]
    included: the lines that would set it are commented out.  Reading
    it, as the watchdog does when it polls, changes nothing either.  No
    step of this program other than those of the engine handle changes
    the timestamp of a worker; the handle sets it to the current time
    when it begins new work. *)
Theorem C8_requests_leave_timestamp (srv : nat) (c : Call) (w : World) :
  heap (snd (dispatch srv c w)) = heap w /\
  (forall i, last_start_at (snd (dispatch srv c w)) i = last_start_at w i) /\
  Server_last_start srv w = (Ok (last_start_at w srv), w) /\
  heap (snd (SuperGuard_run_pass w)) = heap w /\
  (forall s w' j,
     step s w = Some w' -> engine_step s = false -> (j < length (heap w))%nat ->
     Server.pts (heap w' !!! j) = Server.pts (heap w !!! j)) /\
  (forall t0, Server.pts (heap w !!! srv) = Some t0 -> (srv < length (heap w))%nat ->
     last_start_at (snd (begin_work srv w)) srv = now w).
Proof.
  destruct (dispatch_frame srv c w) as (Hh & Hn & _).
  split; [exact Hh|]. split; [|split; [|split; [|split]]].
  - intros i. unfold last_start_at. rewrite Hh, Hn. reflexivity.
  - apply Server_last_start_spec.
  - destruct (run_pass_frame w) as [-> | ->]; reflexivity.
  - intros s w' j. apply step_keeps_pts.
  - intros t0 Hpts Hlt. unfold begin_work, bind, time_time, gets, deref. simpl.
    rewrite Hpts. unfold update, modify, last_start_at. simpl.
    rewrite list_lookup_total_insert_eq by exact Hlt. reflexivity.
Qed.

(** C8 fails as stated: a worker whose engine last began work at time 0
    serves a file fetch, a listing and a file removal at time 100, and its
    timestamp is still 0. *)
Lemma C8_served_request_keeps_old_timestamp :
  let w := set_now 100 (set_heap [worker_up 0] (set_workspaces (Some deep_tree) world0)) in
  fst (Server_copy_file 0 ["notes.txt"] w) = Ok (Some "n") /\
  last_start_at (snd (dispatch 0 (copy_file ["notes.txt"]) w)) 0 = 0 /\
  last_start_at (snd (dispatch 0 (list_workspace_tree "w2") w)) 0 = 0 /\
  last_start_at (snd (dispatch 0 (delete_file ["notes.txt"]) w)) 0 = 0 /\
  now (snd (dispatch 0 (copy_file ["notes.txt"]) w)) = 100.
Proof. vm_compute. repeat split; reflexivity. Qed.

(** The listing and the removal do their work on the tree meanwhile. *)
Example served_requests_work :
  let w := set_heap [worker_up 0] (set_workspaces (Some deep_tree) world0) in
  fst (Server_list_workspace_tree 0 "w3" w) =
    Ok [ ["w1"; "w2"; "w3"; "w4"; "temp_e.pqw6"]; ["w1"; "w2"; "w3"; "w4"];
         ["w1"; "w2"; "w3"; "temp_d.pqw6"]; ["w1"; "w2"; "w3"; "keep.pqw6"];
         ["w1"; "w2"; "w3"] ] /\
  isfile ["w1"; "temp_b.pqw6"] (snd (Server_delete_file 0 ["w1"; "temp_b.pqw6"] w)) = None /\
  isdir ["w1"; "w2"] (snd (Server_delete_file 0 ["w1"; "w2"] w)) = false /\
  isdir ["w1"] (snd (Server_delete_file 0 ["w1"; "w2"] w)) = true.
Proof. vm_compute. repeat split; reflexivity. Qed.

(** ** C10: the argument check *)

Lemma check_ports_spec (ports : list Z) (w : World) :
  for_ ports (fun srv_port =>
    if negb ((49152 <=? srv_port) && (srv_port <=? 65535))
    then raise (SystemExitMsg (invalid_port srv_port))
    else ret tt) w =
  match List.find (fun p => negb (in_range p)) ports with
  | Some p => (Raise (SystemExitMsg (invalid_port p)), w)
  | None => (Ok tt, w)
  end.
Proof.
  induction ports as [|p ports IH]; simpl; [reflexivity|].
  unfold bind, in_range.
  destruct ((49152 <=? p) && (p <=? 65535)); simpl; [exact IH|reflexivity].
Qed.

Lemma check_args_spec (arg : Namespace.t) (ports : list Z) (w : World) :
  Namespace.srv_port arg = PortList ports ->
  check_args arg w =
  match List.find (fun p => negb (in_range p)) ports with
  | Some p => (Raise (SystemExitMsg (invalid_port p)), w)
  | None => (Ok (checked arg ports), w)
  end.
Proof.
  intros Hp. unfold check_args. rewrite Hp. unfold bind.
  rewrite check_ports_spec.
  destruct (List.find (fun p => negb (in_range p)) ports); [reflexivity|].
  unfold ret, checked. destruct arg as [sp rc sg yk]; simpl in *. subst sp.
  destruct ports as [|p [|q ports]]; reflexivity.
Qed.

Lemma in_range_iff (p : Z) : in_range p = true <-> 49152 <= p <= 65535.
Proof. unfold in_range. rewrite andb_true_iff, !Z.leb_le. reflexivity. Qed.

Lemma find_bad_none (ports : list Z) :
  List.find (fun p => negb (in_range p)) ports = None <->
  List.Forall (fun p => 49152 <= p <= 65535) ports.
Proof.
  induction ports as [|p ports IH]; simpl.
  - split; [constructor|reflexivity].
  - destruct (in_range p) eqn:Hp; simpl.
    + rewrite IH. apply in_range_iff in Hp. split.
      * intros H. constructor; assumption.
      * intros H. inversion H; assumption.
    + split; [discriminate|]. intros H. inversion H; subst.
      apply in_range_iff in H2. congruence.
Qed.

Section Paths.
Variable PyPTSWithXmlRpcCallback : M PyPTS.
Variable SimpleXMLRPCServer : Z -> M unit.
Variable serve_forever : nat -> M unit.
Variable env : M unit.

(** C10.  [check_args] lets the process go on exactly when every server
  port is within 49152..65535; otherwise the process ends there, with
  the message for the first port out of range (status 1).  It replaces
  a list of one port by that port, and the main loop then serves in
  the main thread with one [Server] made without arguments, while a
  longer list goes to [multi_main]. *)
Theorem C10_check_args_port_range (arg : Namespace.t) (ports : list Z) (w : World) :
Namespace.srv_port arg = PortList ports ->
(List.Forall (fun p => 49152 <= p <= 65535) ports <->
 check_args arg w = (Ok (checked arg ports), w)) /\
(~ List.Forall (fun p => 49152 <= p <= 65535) ports ->
 exists p, In p ports /\ ~ (49152 <= p <= 65535) /\
   check_args arg w = (Raise (SystemExitMsg (invalid_port p)), w) /\
   forall fuel,
     exit_status
       (fst (main PyPTSWithXmlRpcCallback SimpleXMLRPCServer serve_forever env
               fuel arg w)) = Some 1) /\
(forall p, ports = [p] ->
   Namespace.srv_port (checked arg ports) = PortInt p /\
   forall fuel,
     fleet PyPTSWithXmlRpcCallback SimpleXMLRPCServer serve_forever env
       fuel (checked arg ports) =
     (server <- new None true ;;
      SuperGuard_add_server server ;;
      Server_main PyPTSWithXmlRpcCallback SimpleXMLRPCServer serve_forever
        server p ;;
      ret tt)) /\
(length ports <> 1%nat ->
   Namespace.srv_port (checked arg ports) = PortList ports /\
   forall fuel,
     fleet PyPTSWithXmlRpcCallback SimpleXMLRPCServer serve_forever env
       fuel (checked arg ports) =
     (servers <- multi_main_start env ports [] ;;
      multi_main_wait env fuel servers ;;
      for_ servers (fun s => Server_terminate s ""))).
Proof.
intros Hp. rewrite (check_args_spec arg ports w Hp).
split; [|split; [|split]].
- rewrite <- find_bad_none.
  destruct (List.find (fun p => negb (in_range p)) ports); split;
    congruence.
- intros Hbad. rewrite <- find_bad_none in Hbad.
  destruct (List.find (fun p => negb (in_range p)) ports) as [p|] eqn:Hfind;
    [|congruence].
  apply List.find_some in Hfind as [Hin Hout].
  exists p. split; [exact Hin|]. split.
  + rewrite <- in_range_iff. apply negb_true_iff in Hout. congruence.
  + split; [reflexivity|]. intros fuel. unfold main, boot, bind.
    rewrite (check_args_spec arg ports w Hp).
    destruct (List.find (fun p => negb (in_range p)) ports) as [q|] eqn:Hq.
    * reflexivity.
    * exfalso. apply (List.find_none _ _ Hq) in Hin. congruence.
- intros p ->. split; reflexivity.
- intros Hlen. destruct ports as [|p [|q ports]]; simpl in Hlen;
    try congruence; split; reflexivity.
Qed.
End Paths.

(** The check on two ports within the range. *)
Lemma C10_check_args_witness :
  Namespace.srv_port (two_ports 0) = PortList [50000; 50001] /\
  check_args (two_ports 0) world0 =
    (Ok (checked (two_ports 0) [50000; 50001]), world0) /\
  Namespace.srv_port (checked (two_ports 0) [50000; 50001]) =
    PortList [50000; 50001].
Proof.
  split; [reflexivity|].
  destruct (C10_check_args_port_range
              (ret {| last_start_time := 0 |}) (fun _ => ret tt) (fun _ => ret tt)
              (ret tt) (two_ports 0) [50000; 50001] world0 eq_refl)
    as (Hok & _ & _ & Hmulti).
  split.
  - apply Hok. repeat constructor; lia.
  - apply Hmulti. simpl. lia.
Defined.

(** One port is replaced by itself; a port below the range ends the
    process with the message and status 1. *)
Example check_args_one_port :
  fst (check_args
         {| Namespace.srv_port := PortList [65000]; Namespace.recovery := true;
            Namespace.superguard := 2; Namespace.ykush := ["1"] |} world0) =
  Ok {| Namespace.srv_port := PortInt 65000; Namespace.recovery := true;
        Namespace.superguard := 120; Namespace.ykush := ["1"] |}.
Proof. reflexivity. Qed.

Example check_args_low_port :
  fst (check_args
         {| Namespace.srv_port := PortList [50000; 8080]; Namespace.recovery := true;
            Namespace.superguard := 2; Namespace.ykush := [] |} world0) =
  Raise (SystemExitMsg
           "Invalid server port number=8080, expected range <49152,65535> ").
Proof. vm_compute. reflexivity. Qed.

(** ** C9: the watchdog that is never started *)

Lemma boot_spec (arg _args : Namespace.t) (w0 w1 : World) :
  boot arg w0 = (Ok _args, w1) ->
  Namespace.superguard _args = 60 * Namespace.superguard arg /\
  superguard w1 = SuperGuard.__init__ (60 * Namespace.superguard arg) /\
  superguard_started w1 = negb (60 * Namespace.superguard arg =? 0) /\
  queue w1 = [].
Proof.
  unfold boot, bind at 1. unfold check_args.
  destruct (Namespace.srv_port arg) as [ports|p] eqn:Hp; [|discriminate].
  unfold bind at 1. rewrite check_ports_spec.
  destruct (List.find (fun p => negb (in_range p)) ports); [discriminate|].
  unfold ret at 1.
  set (a := Namespace.set_superguard _ _).
  assert (Ha : Namespace.superguard a = 60 * Namespace.superguard arg).
  { subst a. destruct ports as [|p [|q ports]]; reflexivity. }
  clearbody a. unfold bind, modify, ret. rewrite Ha.
  destruct (60 * Namespace.superguard arg =? 0) eqn:Hz; simpl;
    intros H; inversion H; subst; simpl; rewrite ?Hz; auto.
Qed.

(** While the watchdog thread is not started, no run contains a pass of
    it, the thread stays unstarted and the flag stays unset. *)
Lemma unstarted_forever (steps : list Step) :
  forall w w',
    superguard_started w = false ->
    SuperGuard.was_timeout (superguard w) = false ->
    exec steps w = Some w' ->
    ~ In Guard steps /\ superguard_started w' = false /\
    SuperGuard.was_timeout (superguard w') = false.
Proof.
  induction steps as [|s steps IH]; intros w w' Hs Hf Hex; simpl in Hex.
  - inversion Hex; subst. auto.
  - destruct (step s w) as [w1|] eqn:Hstep; [|discriminate].
    destruct (step_flags s w w1 Hstep) as (Hs1 & Hflag).
    assert (Hf1 : SuperGuard.was_timeout (superguard w1) = false).
    { destruct Hflag as [Hsame|[(_ & Hon & _)|(_ & Hoff)]]; congruence. }
    rewrite Hs in Hs1.
    destruct (IH w1 w' Hs1 Hf1 Hex) as (Hnot & Hs' & Hf').
    split; [|auto]. intros [->|Hin]; [|contradiction].
    simpl in Hstep. rewrite Hs in Hstep. discriminate.
Qed.

(** C9.  With [--superguard 0] the program does not start the watchdog
    thread, and then in every run of the threads no pass of the watchdog
    loop happens: the thread stays unstarted, a pass is not possible, and
    the timeout flag is never set. *)
Theorem C9_no_watchdog_when_timeout_zero
  (arg _args : Namespace.t) (w0 w1 : World) (steps : list Step) (w : World) :
  Namespace.superguard arg = 0 ->
  boot arg w0 = (Ok _args, w1) ->
  exec steps w1 = Some w ->
  superguard_started w1 = false /\
  ~ In Guard steps /\
  superguard_started w = false /\
  step Guard w = None /\
  SuperGuard.was_timeout (superguard w) = false.
Proof.
  intros Hzero Hboot Hex.
  destruct (boot_spec arg _args w0 w1 Hboot) as (_ & Hg & Hs & _).
  rewrite Hzero in Hs, Hg. simpl in Hs, Hg.
  assert (Hf : SuperGuard.was_timeout (superguard w1) = false)
    by (rewrite Hg; reflexivity).
  destruct (unstarted_forever steps w1 w Hs Hf Hex) as (Hnot & Hs' & Hf').
  split; [exact Hs|]. split; [exact Hnot|]. split; [exact Hs'|].
  split; [|exact Hf']. simpl. rewrite Hs'. reflexivity.
Qed.

(** A run of two silent workers after a start with [--superguard 0]. *)
Lemma C9_no_watchdog_witness :
  superguard_started (snd (boot (two_ports 0) world0)) = false /\
  ~ In Guard silent_run /\
  (exists w, exec silent_run (snd (boot (two_ports 0) world0)) = Some w /\
     superguard_started w = false /\ step Guard w = None /\
     SuperGuard.was_timeout (superguard w) = false).
Proof.
  assert (Hboot : boot (two_ports 0) world0 =
                  (Ok (checked (two_ports 0) [50000; 50001]),
                   snd (boot (two_ports 0) world0)))
    by (vm_compute; reflexivity).
  destruct (exec silent_run (snd (boot (two_ports 0) world0))) as [w|] eqn:Hex;
    [|vm_compute in Hex; discriminate].
  destruct (C9_no_watchdog_when_timeout_zero (two_ports 0) _ world0 _ silent_run w
              eq_refl Hboot Hex) as (Hs1 & Hnot & Hs & Hstep & Hf).
  split; [exact Hs1|]. split; [exact Hnot|]. exists w. auto.
Defined.

(** With a timeout of one minute the thread is started, and the same
    workers, silent for more than sixty seconds, are stopped by it. *)
Example started_watchdog_fires :
  let w1 := snd (boot (two_ports 1) world0) in
  superguard_started w1 = true /\
  match exec [ Register (Some 50000); Register (Some 50001);
               Started 0 {| last_start_time := 0 |};
               Started 1 {| last_start_time := 0 |};
               Tick 60; Guard; Tick 1; Guard; Tick 5; Guard ] w1 with
  | Some w =>
      queue w = ["Superguard timeout"; "Superguard timeout"] /\
      SuperGuard.was_timeout (superguard w) = true /\
      SuperGuard.servers (superguard w) = []
  | None => False
  end.
Proof. vm_compute. repeat split; reflexivity. Qed.

(** * More of the program *)

(** ** Walking the workspace tree *)

Lemma os_walk_spec (top : path) (topdown : bool) (w : World) :
  os_walk top topdown w =
  (Ok (match listdir top w with
       | None => []
       | Some es => walk_dir topdown top es
       end), w).
Proof. reflexivity. Qed.

Lemma in_walk_dir (topdown : bool) (top : path) (es : list node) t :
  In t (walk_dir topdown top es) <->
  t = (top, dirnames es, filenames es) \/
  In t (flat_map (walk_node topdown top) es).
Proof.
  unfold walk_dir. destruct topdown; simpl.
  - split; intros [H|H]; auto.
  - rewrite in_app_iff. simpl. split; [intros [H|[H|[]]]|intros [H|H]]; auto.
Qed.

Lemma walk_node_Dir (topdown : bool) (parent : path) (name : string) (sub : list node) :
  walk_node topdown parent (Dir name sub) = walk_dir topdown (parent ++ [name]) sub.
Proof. reflexivity. Qed.

Lemma in_dirnames (es : list node) (name : string) :
  In name (dirnames es) <-> exists sub, In (Dir name sub) es.
Proof.
  unfold dirnames. rewrite in_map_iff. split.
  - intros (f & Hn & Hf). apply List.filter_In in Hf as [Hf Hd].
    destruct f as [n d|n sub]; [discriminate|]. simpl in Hn. subst. eauto.
  - intros (sub & Hin). exists (Dir name sub). split; [reflexivity|].
    apply List.filter_In. auto.
Qed.

Lemma in_filenames (es : list node) (name : string) :
  In name (filenames es) <-> exists data, In (File name data) es.
Proof.
  unfold filenames. rewrite in_map_iff. split.
  - intros (f & Hn & Hf). apply List.filter_In in Hf as [Hf Hd].
    destruct f as [n d|n sub]; [|discriminate]. simpl in Hn. subst. eauto.
  - intros (data & Hin). exists (File name data). split; [reflexivity|].
    apply List.filter_In. auto.
Qed.

Lemma dirs_of_entry (top : path) (es : list node) (name : string) (sub : list node) :
  In (Dir name sub) es -> In (top ++ [name]) (all_dirs top es).
Proof.
  intros Hin. unfold all_dirs. apply in_flat_map. exists (Dir name sub).
  split; [exact Hin|]. simpl. auto.
Qed.

Lemma files_of_entry (top : path) (es : list node) (name data : string) :
  In (File name data) es -> In (top ++ [name]) (all_files top es).
Proof.
  intros Hin. unfold all_files. apply in_flat_map. exists (File name data).
  split; [exact Hin|]. simpl. auto.
Qed.

(** What a triple of the walk names is in the tree. *)
Lemma walk_node_sound (topdown : bool) (f : node) :
  forall parent root dirs files,
    In (root, dirs, files) (walk_node topdown parent f) ->
    In root (dirs_of parent f) /\
    (forall name, In name dirs -> In (root ++ [name]) (dirs_of parent f)) /\
    (forall name, In name files -> In (root ++ [name]) (files_of parent f)).
Proof.
  induction f as [name data|name sub IH] using node_ind';
    intros parent root dirs files Hin; [destruct Hin|].
  rewrite walk_node_Dir in Hin. apply in_walk_dir in Hin as [Heq|Hin].
  - inversion Heq; subst. simpl. split; [auto|]. split.
    + intros n Hn. right. apply in_dirnames in Hn as (s & Hs).
      exact (dirs_of_entry _ _ _ _ Hs).
    + intros n Hn. apply in_filenames in Hn as (d & Hd).
      exact (files_of_entry _ _ _ _ Hd).
  - apply in_flat_map in Hin as (g & Hg & Hin).
    rewrite List.Forall_forall in IH.
    destruct (IH g Hg _ _ _ _ Hin) as (Hr & Hd & Hf). simpl.
    split; [|split].
    + right. apply in_flat_map. eauto.
    + intros n Hn. right. apply in_flat_map. eauto.
    + intros n Hn. apply in_flat_map. eauto.
Qed.

Lemma walk_dir_sound (topdown : bool) (top : path) (es : list node) root dirs files :
  In (root, dirs, files) (walk_dir topdown top es) ->
  (root = top \/ In root (all_dirs top es)) /\
  (forall name, In name dirs -> In (root ++ [name]) (all_dirs top es)) /\
  (forall name, In name files -> In (root ++ [name]) (all_files top es)).
Proof.
  intros Hin. apply in_walk_dir in Hin as [Heq|Hin].
  - inversion Heq; subst. split; [auto|]. split.
    + intros n Hn. apply in_dirnames in Hn as (s & Hs).
      exact (dirs_of_entry _ _ _ _ Hs).
    + intros n Hn. apply in_filenames in Hn as (d & Hd).
      exact (files_of_entry _ _ _ _ Hd).
  - apply in_flat_map in Hin as (g & Hg & Hin).
    destruct (walk_node_sound topdown g _ _ _ _ Hin) as (Hr & Hd & Hf).
    split; [|split].
    + right. apply in_flat_map. eauto.
    + intros n Hn. apply in_flat_map. eauto.
    + intros n Hn. apply in_flat_map. eauto.
Qed.

(** Every directory of the tree is named by a triple of the walk. *)
Lemma walk_node_complete (topdown : bool) (f : node) :
  forall parent p,
    In p (dirs_of parent f) ->
    p = parent ++ [node_name f] \/
    exists root dirs files name,
      In (root, dirs, files) (walk_node topdown parent f) /\
      In name dirs /\ p = root ++ [name].
Proof.
  induction f as [name data|name sub IH] using node_ind';
    intros parent p Hin; [destruct Hin|].
  simpl in Hin. destruct Hin as [Heq|Hin]; [left; auto|]. right.
  apply in_flat_map in Hin as (g & Hg & Hin).
  rewrite List.Forall_forall in IH.
  rewrite walk_node_Dir.
  destruct (IH g Hg _ _ Hin) as [Heq|(root & dirs & files & n & Ht & Hn & Heq)].
  - exists (parent ++ [name]), (dirnames sub), (filenames sub), (node_name g).
    split; [apply in_walk_dir; auto|]. split; [|exact Heq].
    destruct g as [n d|n s]; [destruct Hin|]. apply in_dirnames. eauto.
  - exists root, dirs, files, n. split; [|auto].
    apply in_walk_dir. right. apply in_flat_map. eauto.
Qed.

Lemma walk_dir_complete (topdown : bool) (top : path) (es : list node) (p : path) :
  In p (all_dirs top es) ->
  exists root dirs files name,
    In (root, dirs, files) (walk_dir topdown top es) /\
    In name dirs /\ p = root ++ [name].
Proof.
  intros Hin. apply in_flat_map in Hin as (g & Hg & Hin).
  destruct (walk_node_complete topdown g _ _ Hin)
    as [Heq|(root & dirs & files & n & Ht & Hn & Heq)].
  - exists top, (dirnames es), (filenames es), (node_name g).
    split; [apply in_walk_dir; auto|]. split; [|exact Heq].
    destruct g as [n d|n s]; [destruct Hin|]. apply in_dirnames. eauto.
  - exists root, dirs, files, n. split; [|auto].
    apply in_walk_dir. right. apply in_flat_map. eauto.
Qed.

Lemma find_named (workspace : string) (dirs : list string) :
  match List.find (String.eqb workspace) dirs with
  | Some name => name = workspace /\ In workspace dirs
  | None => ~ In workspace dirs
  end.
Proof.
  destruct (List.find (String.eqb workspace) dirs) as [name|] eqn:Hf.
  - apply List.find_some in Hf as [Hin Heq]. apply String.eqb_eq in Heq.
    subst. auto.
  - intros Hin. apply (List.find_none _ _ Hf) in Hin.
    rewrite String.eqb_refl in Hin. discriminate.
Qed.

Lemma first_named_some (workspace : string) tree (p : path) :
  first_named workspace tree = Some p ->
  exists root dirs files,
    In (root, dirs, files) tree /\ In workspace dirs /\ p = root ++ [workspace].
Proof.
  induction tree as [|[[root dirs] files] tree IH]; simpl; [discriminate|].
  pose proof (find_named workspace dirs) as Hf.
  destruct (List.find (String.eqb workspace) dirs) as [name|].
  - destruct Hf as [-> Hin]. intros H. inversion H; subst.
    exists root, dirs, files. auto.
  - intros H. destruct (IH H) as (r & d & fs & Hin & Hw & Hp).
    exists r, d, fs. auto.
Qed.

Lemma first_named_none (workspace : string) tree :
  first_named workspace tree = None ->
  forall root dirs files, In (root, dirs, files) tree -> ~ In workspace dirs.
Proof.
  induction tree as [|[[root dirs] files] tree IH]; simpl; [intros _ ? ? ? []|].
  pose proof (find_named workspace dirs) as Hf.
  destruct (List.find (String.eqb workspace) dirs) as [name|]; [discriminate|].
  intros H r d fs [Heq|Hin].
  - inversion Heq; subst. exact Hf.
  - exact (IH H r d fs Hin).
Qed.

Lemma get_workspace_spec (workspace : string) (w : World) :
  get_workspace workspace w =
  (Ok (first_named workspace
         (match workspaces w with
          | None => []
          | Some es => walk_dir true [] es
          end)), w).
Proof.
  unfold get_workspace, bind. rewrite os_walk_spec. unfold ret, listdir.
  destruct (workspaces w); reflexivity.
Qed.

(** X1.  [get_workspace] always returns.  What it returns is a directory
    of the workspace tree whose name is the one asked for, and it
    returns [None] only when no directory of the tree, at any depth, has
    that name. *)
Theorem X1_get_workspace_finds_a_directory (workspace : string) (w : World) :
  exists r, get_workspace workspace w = (Ok r, w) /\
    match r with
    | Some p =>
        (exists es, workspaces w = Some es /\ In p (all_dirs [] es)) /\
        List.last p "" = workspace
    | None =>
        forall es p, workspaces w = Some es -> In p (all_dirs [] es) ->
          List.last p "" <> workspace
    end.
Proof.
  rewrite get_workspace_spec. eexists. split; [reflexivity|].
  destruct (workspaces w) as [es|] eqn:Hw.
  - destruct (first_named workspace (walk_dir true [] es)) as [p|] eqn:Hf.
    + apply first_named_some in Hf as (root & dirs & files & Hin & Hn & ->).
      destruct (walk_dir_sound _ _ _ _ _ _ Hin) as (_ & Hd & _).
      split; [exists es; auto|]. apply List.last_last.
    + intros es' p Hes Hp Hlast. inversion Hes; subst es'.
      destruct (walk_dir_complete true [] es p Hp)
        as (root & dirs & files & n & Hin & Hn & ->).
      rewrite List.last_last in Hlast. subst n.
      exact (first_named_none _ _ Hf _ _ _ Hin Hn).
  - simpl. intros es p Hes. discriminate.
Qed.

Lemma find_first_named (workspace : string) (dirs : list string) :
  In workspace dirs -> List.find (String.eqb workspace) dirs = Some workspace.
Proof.
  intros Hin. pose proof (find_named workspace dirs) as Hf.
  destruct (List.find (String.eqb workspace) dirs) as [name|].
  - destruct Hf as [-> _]. reflexivity.
  - contradiction.
Qed.

(** X2.  A directory directly under [workspaces] wins: when one has the
    name asked for, it is the one returned, whatever directories of that
    name lie deeper in the tree. *)
Theorem X2_get_workspace_prefers_top_level
  (workspace : string) (w : World) (es sub : list node) :
  workspaces w = Some es ->
  In (Dir workspace sub) es ->
  get_workspace workspace w = (Ok (Some [workspace]), w).
Proof.
  intros Hw Hin. rewrite get_workspace_spec, Hw. unfold walk_dir. simpl.
  rewrite find_first_named; [reflexivity|].
  apply in_dirnames. eauto.
Qed.

Lemma X2_get_workspace_witness :
  get_workspace "logs" (set_workspaces (Some twice_named) world0) =
  (Ok (Some ["logs"]), set_workspaces (Some twice_named) world0).
Proof.
  apply (X2_get_workspace_prefers_top_level "logs" _ twice_named
           [ File "top.txt" "t" ]).
  - reflexivity.
  - simpl. auto.
Defined.

(** ** Listing a workspace *)

Lemma below_refl (p : path) : below p p.
Proof. exists []. rewrite app_nil_r. reflexivity. Qed.

Lemma below_app (p r : path) : below p (p ++ r).
Proof. exists r. reflexivity. Qed.

Lemma below_trans (p q r : path) : below p q -> below q r -> below p r.
Proof.
  intros (a & ->) (b & ->). exists (a ++ b). rewrite app_assoc. reflexivity.
Qed.

Lemma dirs_of_below (f : node) :
  forall parent p, In p (dirs_of parent f) -> below parent p.
Proof.
  induction f as [name data|name sub IH] using node_ind'; intros parent p Hin;
    [destruct Hin|].
  simpl in Hin. destruct Hin as [<-|Hin]; [apply below_app|].
  apply in_flat_map in Hin as (g & Hg & Hin).
  rewrite List.Forall_forall in IH.
  apply (below_trans _ (parent ++ [name])); [apply below_app|].
  exact (IH g Hg _ _ Hin).
Qed.

Lemma files_of_below (f : node) :
  forall parent p, In p (files_of parent f) -> below parent p.
Proof.
  induction f as [name data|name sub IH] using node_ind'; intros parent p Hin.
  - simpl in Hin. destruct Hin as [<-|[]]. apply below_app.
  - simpl in Hin. apply in_flat_map in Hin as (g & Hg & Hin).
    rewrite List.Forall_forall in IH.
    apply (below_trans _ (parent ++ [name])); [apply below_app|].
    exact (IH g Hg _ _ Hin).
Qed.

Lemma all_dirs_below (top : path) (es : list node) (p : path) :
  In p (all_dirs top es) -> below top p.
Proof.
  intros Hin. apply in_flat_map in Hin as (g & _ & Hin).
  exact (dirs_of_below g _ _ Hin).
Qed.

Lemma all_files_below (top : path) (es : list node) (p : path) :
  In p (all_files top es) -> below top p.
Proof.
  intros Hin. apply in_flat_map in Hin as (g & _ & Hin).
  exact (files_of_below g _ _ Hin).
Qed.

(** The paths [list_workspace_tree] builds from the triples of a walk. *)
Lemma in_listing (tree : list (path * list string * list string)) (p : path) :
  In p (flat_map (fun '(root, dirs, files) =>
          List.map (fun name => root ++ [name]) files ++ [root]) tree) <->
  exists root dirs files,
    In (root, dirs, files) tree /\
    (p = root \/ exists name, In name files /\ p = root ++ [name]).
Proof.
  rewrite in_flat_map. split.
  - intros ([[root dirs] files] & Hin & Hp). exists root, dirs, files.
    split; [exact Hin|]. apply in_app_iff in Hp as [Hp|[<-|[]]]; [|auto].
    apply in_map_iff in Hp as (name & <- & Hn). eauto.
  - intros (root & dirs & files & Hin & Hp). exists (root, dirs, files).
    split; [exact Hin|]. apply in_app_iff. destruct Hp as [->|(name & Hn & ->)].
    + right. simpl. auto.
    + left. apply in_map_iff. eauto.
Qed.

Lemma listing_sound (top : path) (es : list node) (p : path) :
  In p (flat_map (fun '(root, dirs, files) =>
          List.map (fun name => root ++ [name]) files ++ [root])
          (walk_dir false top es)) ->
  p = top \/ In p (all_dirs top es) \/ In p (all_files top es).
Proof.
  intros Hin. apply in_listing in Hin as (root & dirs & files & Ht & Hp).
  destruct (walk_dir_sound _ _ _ _ _ _ Ht) as (Hr & _ & Hf).
  destruct Hp as [->|(name & Hn & ->)]; [tauto|]. right; right. auto.
Qed.

Lemma Server_list_workspace_tree_spec (self : nat) (workspace_dir : string) (w : World) :
  Server_list_workspace_tree self workspace_dir w =
  match fst (get_workspace workspace_dir w) with
  | Ok (Some top) =>
      (Ok (flat_map (fun '(root, dirs, files) =>
             List.map (fun name => root ++ [name]) files ++ [root])
             (match listdir top w with
              | None => []
              | Some es => walk_dir false top es
              end)), w)
  | _ => (Raise (TypeError "expected str, bytes or os.PathLike object"), w)
  end.
Proof.
  unfold Server_list_workspace_tree, bind. rewrite get_workspace_spec. simpl.
  destruct (first_named workspace_dir _); reflexivity.
Qed.

(** X3.  [list_workspace_tree] raises a [TypeError] when no directory has
    the name asked for.  Otherwise it returns, and every path it returns
    is the directory [get_workspace] found or lies below it; when that
    directory can be read, it is the last path of the list.  The world
    is the same afterwards in each case. *)
Theorem X3_list_workspace_tree_stays_inside
  (self : nat) (workspace_dir : string) (w : World) :
  (fst (get_workspace workspace_dir w) = Ok None ->
   Server_list_workspace_tree self workspace_dir w =
     (Raise (TypeError "expected str, bytes or os.PathLike object"), w)) /\
  (forall top, fst (get_workspace workspace_dir w) = Ok (Some top) ->
   exists paths,
     Server_list_workspace_tree self workspace_dir w = (Ok paths, w) /\
     (forall p, In p paths -> below top p) /\
     (isdir top w = true -> exists before, paths = before ++ [top])).
Proof.
  rewrite Server_list_workspace_tree_spec. split.
  - intros ->. reflexivity.
  - intros top ->. eexists. split; [reflexivity|]. split.
    + intros p Hp. destruct (listdir top w) as [es|]; [|destruct Hp].
      apply listing_sound in Hp as [->|[Hp|Hp]].
      * apply below_refl.
      * exact (all_dirs_below _ _ _ Hp).
      * exact (all_files_below _ _ _ Hp).
    + unfold isdir. destruct (listdir top w) as [es|]; [|discriminate].
      intros _. unfold walk_dir. rewrite flat_map_app. simpl.
      rewrite app_nil_r. eexists. rewrite app_assoc. reflexivity.
Qed.

(** ** Listed paths can be fetched *)

Lemma find_entry_some (es : list node) (name : string) (f : node) :
  find_entry es name = Some f -> In f es /\ node_name f = name.
Proof.
  unfold find_entry. intros H. apply List.find_some in H as [Hin Heq].
  apply String.eqb_eq in Heq. auto.
Qed.

Lemma existsb_eqb_false (n : string) (l : list string) :
  existsb (String.eqb n) l = false -> forall x, In x l -> x <> n.
Proof.
  intros H x Hin ->.
  assert (Ht : existsb (String.eqb n) l = true).
  { apply existsb_exists. exists n. split; [exact Hin|apply String.eqb_refl]. }
  congruence.
Qed.

Lemma find_entry_distinct (es : list node) (g : node) :
  distinct (List.map node_name es) = true ->
  In g es -> find_entry es (node_name g) = Some g.
Proof.
  unfold find_entry.
  induction es as [|a es IH]; simpl; intros Hd Hin; [destruct Hin|].
  apply andb_true_iff in Hd as [Hfresh Hd]. apply negb_true_iff in Hfresh.
  destruct Hin as [->|Hin].
  - rewrite String.eqb_refl. reflexivity.
  - destruct (String.eqb (node_name a) (node_name g)) eqn:Heq.
    + apply String.eqb_eq in Heq. exfalso.
      apply (existsb_eqb_false _ _ Hfresh (node_name g)); [|auto].
      apply in_map. exact Hin.
    + apply IH; assumption.
Qed.

(** A path found in one entry is found in a directory that holds the
    entry, names being distinct. *)
Lemma lookup_path_entry (es : list node) (g : node) (q : path) (x : node) :
  distinct (List.map node_name es) = true ->
  In g es -> lookup_path [g] q = Some x -> lookup_path es q = Some x.
Proof.
  intros Hd Hin. destruct q as [|n rest]; simpl; [discriminate|].
  unfold find_entry at 1. simpl.
  destruct (String.eqb (node_name g) n) eqn:Heq; [|destruct rest; discriminate].
  apply String.eqb_eq in Heq. subst n.
  pose proof (find_entry_distinct es g Hd Hin) as Hfind.
  unfold find_entry in Hfind. rewrite Hfind. auto.
Qed.

Lemma lookup_path_in_Dir (n : string) (sub : list node) (q : path) (x : node) :
  lookup_path sub q = Some x -> lookup_path [Dir n sub] (n :: q) = Some x.
Proof.
  intros H. simpl. unfold find_entry. simpl. rewrite String.eqb_refl.
  destruct q; [discriminate|exact H].
Qed.

Lemma files_of_found (g : node) :
  well_named g = true ->
  forall base p, In p (files_of base g) ->
    exists q nm d, p = base ++ q /\ lookup_path [g] q = Some (File nm d).
Proof.
  induction g as [name data|name sub IH] using node_ind'; intros Hwf base p Hin.
  - simpl in Hin. destruct Hin as [<-|[]]. exists [name], name, data.
    split; [reflexivity|]. simpl. unfold find_entry. simpl.
    rewrite String.eqb_refl. reflexivity.
  - simpl in Hwf. apply andb_true_iff in Hwf as [Hd Hall].
    simpl in Hin. apply in_flat_map in Hin as (h & Hh & Hin).
    rewrite List.Forall_forall in IH. rewrite forallb_forall in Hall.
    destruct (IH h Hh (Hall h Hh) _ _ Hin) as (q & nm & d & -> & Hq).
    exists (name :: q), nm, d. split; [rewrite <- app_assoc; reflexivity|].
    apply lookup_path_in_Dir. exact (lookup_path_entry sub h q _ Hd Hh Hq).
Qed.

Lemma dirs_of_found (g : node) :
  well_named g = true ->
  forall base p, In p (dirs_of base g) ->
    exists q nm s, p = base ++ q /\ lookup_path [g] q = Some (Dir nm s).
Proof.
  induction g as [name data|name sub IH] using node_ind'; intros Hwf base p Hin;
    [destruct Hin|].
  simpl in Hwf. apply andb_true_iff in Hwf as [Hd Hall].
  simpl in Hin. destruct Hin as [<-|Hin].
  - exists [name], name, sub. split; [reflexivity|]. simpl. unfold find_entry.
    simpl. rewrite String.eqb_refl. reflexivity.
  - apply in_flat_map in Hin as (h & Hh & Hin).
    rewrite List.Forall_forall in IH. rewrite forallb_forall in Hall.
    destruct (IH h Hh (Hall h Hh) _ _ Hin) as (q & nm & s & -> & Hq).
    exists (name :: q), nm, s. split; [rewrite <- app_assoc; reflexivity|].
    apply lookup_path_in_Dir. exact (lookup_path_entry sub h q _ Hd Hh Hq).
Qed.

Lemma all_files_found (es : list node) (p : path) :
  well_named_tree es = true -> In p (all_files [] es) ->
  exists nm d, lookup_path es p = Some (File nm d).
Proof.
  intros Hwf Hin. apply andb_true_iff in Hwf as [Hd Hall].
  rewrite forallb_forall in Hall. apply in_flat_map in Hin as (g & Hg & Hin).
  destruct (files_of_found g (Hall g Hg) _ _ Hin) as (q & nm & d & -> & Hq).
  exists nm, d. exact (lookup_path_entry es g q _ Hd Hg Hq).
Qed.

Lemma all_dirs_found (es : list node) (p : path) :
  well_named_tree es = true -> In p (all_dirs [] es) ->
  exists nm s, lookup_path es p = Some (Dir nm s).
Proof.
  intros Hwf Hin. apply andb_true_iff in Hwf as [Hd Hall].
  rewrite forallb_forall in Hall. apply in_flat_map in Hin as (g & Hg & Hin).
  destruct (dirs_of_found g (Hall g Hg) _ _ Hin) as (q & nm & s & -> & Hq).
  exists nm, s. exact (lookup_path_entry es g q _ Hd Hg Hq).
Qed.

(** What lies in a directory of the tree lies in the tree. *)
Lemma subtree_incl (q : path) :
  forall es base n sub,
    lookup_path es q = Some (Dir n sub) ->
    incl (all_files (base ++ q) sub) (all_files base es) /\
    incl (all_dirs (base ++ q) sub) (all_dirs base es).
Proof.
  induction q as [|nm rest IH]; intros es base n sub Hl; [discriminate|].
  simpl in Hl. destruct (find_entry es nm) as [f|] eqn:Hf;
    [|destruct rest; discriminate].
  apply find_entry_some in Hf as [Hin Hname].
  destruct rest as [|nm' rest].
  - assert (Hf : f = Dir n sub) by (destruct f; congruence).
    subst f. simpl in Hname. subst n. split; intros p Hp.
    + apply in_flat_map. exists (Dir nm sub). split; [exact Hin|exact Hp].
    + apply in_flat_map. exists (Dir nm sub). split; [exact Hin|]. simpl. auto.
  - destruct f as [fn fd|fn fsub]; [discriminate|]. simpl in Hname. subst fn.
    destruct (IH fsub (base ++ [nm]) n sub Hl) as [Hfiles Hdirs].
    rewrite <- app_assoc in Hfiles, Hdirs. simpl in Hfiles, Hdirs.
    split; intros p Hp.
    + apply in_flat_map. exists (Dir nm fsub). split; [exact Hin|].
      exact (Hfiles p Hp).
    + apply in_flat_map. exists (Dir nm fsub). split; [exact Hin|].
      simpl. right. exact (Hdirs p Hp).
Qed.

Lemma Server_copy_file_spec (self : nat) (p : path) (w : World) :
  Server_copy_file self p w = (Ok (isfile p w), w).
Proof. reflexivity. Qed.

(** X4.  In a tree where no directory holds two entries of one name,
    every path [list_workspace_tree] returns names something that is
    there: [copy_file] of it gives the content of a file, or gives [None]
    and the path is a directory. *)
Theorem X4_listed_paths_can_be_fetched
  (self : nat) (workspace_dir : string) (w : World) (es : list node)
  (paths : list path) (p : path) :
  well_named_tree es = true ->
  workspaces w = Some es ->
  Server_list_workspace_tree self workspace_dir w = (Ok paths, w) ->
  In p paths ->
  (exists data, Server_copy_file self p w = (Ok (Some data), w)) \/
  (Server_copy_file self p w = (Ok None, w) /\ isdir p w = true).
Proof.
  intros Hwf Hw Hlist Hp. rewrite Server_list_workspace_tree_spec in Hlist.
  rewrite get_workspace_spec, Hw in Hlist. cbn [fst] in Hlist.
  destruct (first_named workspace_dir (walk_dir true [] es)) as [top|] eqn:Hf;
    [|discriminate].
  apply first_named_some in Hf as (root & dirs & files & Hin & Hn & ->).
  destruct (walk_dir_sound _ _ _ _ _ _ Hin) as (_ & Hd & _).
  specialize (Hd _ Hn). set (top := root ++ [workspace_dir]) in *.
  destruct (all_dirs_found es top Hwf Hd) as (nm & sub & Htop).
  assert (Hne : top <> []) by (subst top; destruct root; discriminate).
  assert (Hls : listdir top w = Some sub).
  { unfold listdir. rewrite Hw, Htop. destruct top; congruence. }
  rewrite Hls in Hlist. inversion Hlist; subst paths. clear Hlist.
  destruct (subtree_incl top es [] nm sub Htop) as [Hfiles Hdirs].
  simpl in Hfiles, Hdirs. rewrite Server_copy_file_spec. unfold isfile, isdir.
  rewrite Hw.
  assert (Hdir : forall q, In q (all_dirs [] es) ->
            (exists data : string,
               (Ok match lookup_path es q with
                   | Some (File _ data0) => Some data0
                   | _ => None
                   end, w) = (Ok (Some data), w)) \/
            (Ok match lookup_path es q with
                | Some (File _ data0) => Some data0
                | _ => None
                end, w) = (Ok None, w) /\
            match listdir q w with Some _ => true | None => false end = true).
  { intros q Hq. destruct (all_dirs_found es q Hwf Hq) as (n' & s' & Hl).
    right. rewrite Hl. split; [reflexivity|]. unfold listdir. rewrite Hw, Hl.
    destruct q; reflexivity. }
  apply listing_sound in Hp as [->|[Hp|Hp]].
  - apply Hdir. exact Hd.
  - apply Hdir. exact (Hdirs p Hp).
  - destruct (all_files_found es p Hwf (Hfiles p Hp)) as (n' & d & Hl).
    left. exists d. rewrite Hl. reflexivity.
Qed.

Lemma X4_listed_paths_witness :
  (exists data,
     Server_copy_file 0 ["w1"; "w2"; "w3"; "keep.pqw6"] busy_world =
     (Ok (Some data), busy_world)) \/
  (Server_copy_file 0 ["w1"; "w2"; "w3"; "keep.pqw6"] busy_world = (Ok None, busy_world) /\
   isdir ["w1"; "w2"; "w3"; "keep.pqw6"] busy_world = true).
Proof.
  apply (X4_listed_paths_can_be_fetched 0 "w3" busy_world deep_tree
           [ ["w1"; "w2"; "w3"; "w4"; "temp_e.pqw6"]; ["w1"; "w2"; "w3"; "w4"];
             ["w1"; "w2"; "w3"; "temp_d.pqw6"]; ["w1"; "w2"; "w3"; "keep.pqw6"];
             ["w1"; "w2"; "w3"] ]).
  - reflexivity.
  - reflexivity.
  - vm_compute. reflexivity.
  - simpl. auto.
Defined.

(** ** Removing a path *)

Lemma find_entry_filter_same (es : list node) (name : string) :
  find_entry (List.filter (fun f => negb (String.eqb (node_name f) name)) es) name
  = None.
Proof.
  unfold find_entry. induction es as [|f es IH]; simpl; [reflexivity|].
  destruct (String.eqb (node_name f) name) eqn:Heq; simpl; [exact IH|].
  rewrite Heq. exact IH.
Qed.

Lemma find_entry_filter_other (es : list node) (name other : string) :
  other <> name ->
  find_entry (List.filter (fun f => negb (String.eqb (node_name f) name)) es) other
  = find_entry es other.
Proof.
  intros Hne. unfold find_entry. induction es as [|f es IH]; simpl; [reflexivity|].
  destruct (String.eqb (node_name f) name) eqn:Heq; simpl.
  - apply String.eqb_eq in Heq.
    destruct (String.eqb (node_name f) other) eqn:Ho; [|exact IH].
    apply String.eqb_eq in Ho. congruence.
  - destruct (String.eqb (node_name f) other); [reflexivity|exact IH].
Qed.

Lemma find_entry_map (g : node -> node) (es : list node) (name : string) :
  (forall f, node_name (g f) = node_name f) ->
  find_entry (List.map g es) name = option_map g (find_entry es name).
Proof.
  intros Hg. unfold find_entry. induction es as [|f es IH]; simpl; [reflexivity|].
  rewrite Hg. destruct (String.eqb (node_name f) name); [reflexivity|exact IH].
Qed.

Lemma remove_path_deep (es : list node) (name n2 : string) (rest : path) :
  remove_path es (name :: n2 :: rest) =
  List.map (fun f =>
    match f with
    | Dir n sub =>
        if String.eqb n name then Dir n (remove_path sub (n2 :: rest)) else f
    | File _ _ => f
    end) es.
Proof. reflexivity. Qed.

Lemma remove_step_name (name : string) (tail : path) (f : node) :
  node_name
    match f with
    | Dir n sub => if String.eqb n name then Dir n (remove_path sub tail) else f
    | File _ _ => f
    end = node_name f.
Proof.
  destruct f as [n d|n sub]; [reflexivity|].
  destruct (String.eqb n name); reflexivity.
Qed.

(** After the removal nothing is found at the path. *)
Lemma lookup_path_removed (p : path) :
  forall es, lookup_path (remove_path es p) p = None.
Proof.
  induction p as [|name rest IH]; intros es; [reflexivity|].
  destruct rest as [|n2 rest].
  - simpl. rewrite find_entry_filter_same. reflexivity.
  - rewrite remove_path_deep. cbn [lookup_path].
    rewrite find_entry_map by (apply remove_step_name).
    destruct (find_entry es name) as [f|] eqn:Hf; [|reflexivity].
    apply find_entry_some in Hf as [_ Hname]. simpl.
    destruct f as [n d|n sub]; [reflexivity|]. simpl in Hname. subst n.
    rewrite String.eqb_refl. apply IH.
Qed.

(** What is at a path that is not the removed one nor below it stays. *)
Lemma lookup_path_kept (p : path) :
  forall es q, ~ below p q ->
    kind_of (lookup_path (remove_path es p) q) = kind_of (lookup_path es q).
Proof.
  induction p as [|name rest IH]; intros es q Hnot.
  - exfalso. apply Hnot. exists q. reflexivity.
  - destruct q as [|qn qrest]; [destruct rest; reflexivity|].
    destruct rest as [|n2 rest].
    + assert (Hne : qn <> name).
      { intros ->. apply Hnot. exists qrest. reflexivity. }
      simpl. rewrite find_entry_filter_other by exact Hne. reflexivity.
    + rewrite remove_path_deep. cbn [lookup_path].
      rewrite find_entry_map by (apply remove_step_name).
      destruct (find_entry es qn) as [f|] eqn:Hf; [|reflexivity].
      apply find_entry_some in Hf as [_ Hname]. simpl.
      destruct f as [n d|n sub]; [reflexivity|]. simpl in Hname. subst n.
      destruct (String.eqb qn name) eqn:Heq; [|reflexivity].
      apply String.eqb_eq in Heq. subst qn.
      destruct qrest as [|q2 qrest]; [reflexivity|].
      apply IH. intros (r & Hr). apply Hnot. exists r. simpl. f_equal. exact Hr.
Qed.

Lemma unlink_gone (p : path) (w : World) :
  isfile p (unlink p w) = None /\ isdir p (unlink p w) = false.
Proof.
  unfold unlink. destruct (workspaces w) as [es|] eqn:Hw.
  - destruct p as [|name rest].
    + unfold isfile, isdir, listdir. simpl. auto.
    + unfold isfile, isdir, listdir.
      cbn [workspaces set_workspaces].
      rewrite lookup_path_removed. auto.
  - unfold isfile, isdir, listdir. rewrite Hw. auto.
Qed.

Lemma unlink_frame (p q : path) (w : World) :
  ~ below p q ->
  isfile q (unlink p w) = isfile q w /\ isdir q (unlink p w) = isdir q w.
Proof.
  intros Hnot. unfold unlink. destruct (workspaces w) as [es|] eqn:Hw; [|auto].
  destruct p as [|name rest].
  - exfalso. apply Hnot. exists q. reflexivity.
  - pose proof (lookup_path_kept (name :: rest) es q Hnot) as Hk.
    unfold isfile, isdir, listdir. cbn [workspaces set_workspaces]. rewrite Hw.
    destruct q as [|qn qrest]; [auto|].
    destruct (lookup_path (remove_path es (name :: rest)) (qn :: qrest)) as [[? ?|? ?]|],
             (lookup_path es (qn :: qrest)) as [[? ?|? ?]|];
      simpl in Hk; try discriminate; try (inversion Hk; subst); auto.
Qed.

Lemma Server_delete_file_spec (self : nat) (p : path) (w : World) :
  Server_delete_file self p w =
  (Ok tt,
   match isfile p w with
   | Some _ => unlink p (set_trace (trace w ++ [EvRemove p]) w)
   | None =>
       if isdir p w then unlink p (set_trace (trace w ++ [EvRmtree p]) w)
       else w
   end).
Proof.
  unfold Server_delete_file, bind, gets, emit, modify, ret.
  destruct (isfile p w); [reflexivity|].
  destruct (isdir p w); reflexivity.
Qed.

(** X5.  [delete_file] always returns, and afterwards there is neither a
    file nor a directory at the path, whatever was there: a file, a whole
    directory tree, or nothing.  When nothing was there, nothing at all
    changes. *)
Theorem X5_delete_file_leaves_nothing (self : nat) (p : path) (w : World) :
  exists w', Server_delete_file self p w = (Ok tt, w') /\
    isfile p w' = None /\ isdir p w' = false /\
    (isfile p w = None -> isdir p w = false -> w' = w).
Proof.
  rewrite Server_delete_file_spec. eexists. split; [reflexivity|].
  destruct (isfile p w) as [d|] eqn:Hf.
  - destruct (unlink_gone p (set_trace (trace w ++ [EvRemove p]) w)) as [H1 H2].
    split; [exact H1|]. split; [exact H2|]. discriminate.
  - destruct (isdir p w) eqn:Hd.
    + destruct (unlink_gone p (set_trace (trace w ++ [EvRmtree p]) w)) as [H1 H2].
      split; [exact H1|]. split; [exact H2|]. discriminate.
    + auto.
Qed.

(** X6.  [delete_file] touches nothing but the path and what lies below
    it: every other path is a file with the same content, a directory,
    or nothing, as before. *)
Theorem X6_delete_file_keeps_the_rest (self : nat) (p q : path) (w : World) :
  ~ below p q ->
  isfile q (snd (Server_delete_file self p w)) = isfile q w /\
  isdir q (snd (Server_delete_file self p w)) = isdir q w.
Proof.
  intros Hnot. rewrite Server_delete_file_spec. cbn [snd].
  destruct (isfile p w) as [d|].
  - exact (unlink_frame p q (set_trace (trace w ++ [EvRemove p]) w) Hnot).
  - destruct (isdir p w); [|auto].
    exact (unlink_frame p q (set_trace (trace w ++ [EvRmtree p]) w) Hnot).
Qed.

Lemma X6_delete_file_witness :
  isfile ["w1"; "temp_b.pqw6"] (snd (Server_delete_file 0 ["w1"; "w2"] busy_world)) =
    isfile ["w1"; "temp_b.pqw6"] busy_world /\
  isdir ["w1"; "temp_b.pqw6"] (snd (Server_delete_file 0 ["w1"; "w2"] busy_world)) =
    isdir ["w1"; "temp_b.pqw6"] busy_world.
Proof.
  apply (X6_delete_file_keeps_the_rest 0 ["w1"; "w2"] ["w1"; "temp_b.pqw6"] busy_world).
  intros (r & Hr). discriminate.
Defined.

(** ** Running the recovery again *)

Lemma prune_again (levels : nat) :
  forall es, prune levels (prune levels es) = prune levels es.
Proof.
  induction levels as [|m IH]; intros es; [reflexivity|]. simpl.
  induction es as [|f es IHes]; simpl; [reflexivity|].
  rewrite flat_map_app, IHes. f_equal.
  destruct f as [name data|name sub]; simpl.
  - destruct (temp_workspace name) eqn:Ht; simpl; [reflexivity|].
    rewrite Ht. reflexivity.
  - rewrite IH. reflexivity.
Qed.

Lemma temp_files_pruned (levels : nat) :
  forall directory es, temp_files levels directory (prune levels es) = [].
Proof.
  induction levels as [|m IH]; intros directory es; [reflexivity|]. simpl.
  induction es as [|f es IHes]; simpl; [reflexivity|].
  rewrite flat_map_app, IHes, app_nil_r.
  destruct f as [name data|name sub]; simpl.
  - destruct (temp_workspace name) eqn:Ht; simpl; [reflexivity|].
    rewrite Ht. reflexivity.
  - rewrite IH. reflexivity.
Qed.

Lemma clean_pruned (levels : nat) :
  forall es, clean levels (prune levels es) = clean levels es.
Proof.
  induction levels as [|m IH]; intros es; [reflexivity|]. simpl.
  induction es as [|f es IHes]; simpl; [reflexivity|].
  rewrite forallb_app, IHes. f_equal.
  destruct f as [name data|name sub]; simpl.
  - destruct (temp_workspace name); reflexivity.
  - rewrite andb_true_r. destruct m as [|k]; [reflexivity|]. apply IH.
Qed.

Lemma swept_nothing (es : list node) (w : World) :
  workspaces w = Some es -> swept es [] w = w.
Proof.
  intros H. unfold swept. destruct w; simpl in *. subst.
  unfold set_trace, set_workspaces. simpl. rewrite app_nil_r. reflexivity.
Qed.

(** A cleanup of a tree that a cleanup has left does nothing. *)
Lemma delete_workspaces_of_pruned (w : World) (es : list node) :
  workspaces w = Some (prune 4 es) -> clean 4 es = true ->
  delete_workspaces w = (Ok tt, w).
Proof.
  intros Hw Hc.
  destruct (delete_workspaces_spec w (prune 4 es) Hw)
    as (r & es' & evs & Hdel & _ & Hiff & Hdone & _).
  assert (Hr : r = Ok tt) by (apply Hiff; rewrite clean_pruned; exact Hc).
  destruct (Hdone Hr) as [-> ->]. subst r. rewrite Hdel.
  rewrite prune_again, temp_files_pruned. simpl.
  rewrite swept_nothing by exact Hw. reflexivity.
Qed.

(** X7.  The cleanup can be run again: after a run of [delete_workspaces]
    that returned, another run returns as well, removes nothing and
    leaves the world as it is. *)
Theorem X7_delete_workspaces_again (w w1 : World) :
  delete_workspaces w = (Ok tt, w1) ->
  delete_workspaces w1 = (Ok tt, w1).
Proof.
  intros H. destruct (workspaces w) as [es|] eqn:Hw.
  - destruct (delete_workspaces_spec w es Hw)
      as (r & es' & evs & Hdel & _ & Hiff & Hdone & _).
    rewrite Hdel in H. inversion H; subst r w1.
    destruct (Hdone eq_refl) as [-> _].
    apply (delete_workspaces_of_pruned _ es); [reflexivity|].
    apply Hiff. reflexivity.
  - rewrite delete_workspaces_missing in H by exact Hw. discriminate.
Qed.

Lemma X7_delete_workspaces_witness :
  delete_workspaces (snd (delete_workspaces busy_world)) =
  (Ok tt, snd (delete_workspaces busy_world)).
Proof.
  apply (X7_delete_workspaces_again busy_world).
  vm_compute. reflexivity.
Defined.

Lemma reap_filter (dead table : list Process) :
  reap dead table =
  List.filter
    (fun q => forallb (fun ps => negb (ProcessId q =? ProcessId ps)) dead) table.
Proof.
  unfold reap. revert table. induction dead as [|ps dead IH]; intros table; simpl.
  - symmetry. apply filter_every. reflexivity.
  - rewrite IH. clear IH. induction table as [|q table IHt]; simpl; [reflexivity|].
    destruct (ProcessId q =? ProcessId ps); simpl; [exact IHt|].
    destruct (forallb _ dead); [f_equal|]; exact IHt.
Qed.

Lemma killable_filter (name : string) (w : World) :
  killable name w =
  List.filter (fun ps => String.eqb (Name ps) name && negb (gone ps)) (procs w).
Proof.
  unfold killable, named. induction (procs w) as [|q t IH]; simpl; [reflexivity|].
  destruct (String.eqb (Name q) name); simpl; [|exact IH].
  destruct (gone q); simpl; [|f_equal]; exact IH.
Qed.

(** Nobody of that name is left to kill after [kill_all_processes]. *)
Lemma killable_of_survivors (name : string) (table : list Process) (keep : Process -> bool) :
  (forall q, In q table -> String.eqb (Name q) name && negb (gone q) = true ->
             keep q = false) ->
  List.filter (fun ps => String.eqb (Name ps) name && negb (gone ps))
    (List.filter keep table) = [].
Proof.
  intros Hk. apply filter_none. intros q Hq.
  apply List.filter_In in Hq as [Hin Hkeep].
  destruct (String.eqb (Name q) name && negb (gone q)) eqn:Hs; [|reflexivity].
  rewrite (Hk q Hin Hs) in Hkeep. discriminate.
Qed.

Lemma killed_nothing (name : string) (w : World) :
  killable name w = [] -> killed name w = w.
Proof.
  intros H. unfold killed. rewrite H. simpl.
  destruct w; unfold set_trace, set_procs; simpl. rewrite app_nil_r. reflexivity.
Qed.

Lemma killable_killed (name : string) (w : World) :
  killable name (killed name w) = [].
Proof.
  rewrite killable_filter. simpl. rewrite reap_filter.
  apply killable_of_survivors. intros q Hin Hs.
  apply not_true_is_false. intros Hall. rewrite forallb_forall in Hall.
  assert (Hq : In q (killable name w)).
  { rewrite killable_filter. apply List.filter_In. auto. }
  specialize (Hall q Hq). rewrite Z.eqb_refl in Hall. discriminate.
Qed.

Lemma killable_killed_twice (name other : string) (w : World) :
  killable name (killed other (killed name w)) = [].
Proof.
  pose proof (killable_killed name w) as H0. rewrite killable_filter in H0.
  rewrite killable_filter. simpl. rewrite (reap_filter _ (reap _ _)).
  apply filter_none. intros q Hq. apply List.filter_In in Hq as [Hin _].
  destruct (String.eqb (Name q) name && negb (gone q)) eqn:Hs; [|reflexivity].
  assert (Hq : In q (List.filter
                       (fun ps => String.eqb (Name ps) name && negb (gone ps))
                       (procs (killed name w)))).
  { apply List.filter_In. auto. }
  simpl in Hq. simpl in H0. rewrite H0 in Hq. destruct Hq.
Qed.

(** The world a recovery that returned has left. *)
Lemma recover_pts_returned (ports : list string) (w w1 : World) :
  recover_pts ports w = (Ok tt, w1) ->
  exists es evs,
    workspaces w = Some es /\ clean 4 es = true /\
    w1 = set_trace (trace (killed "Fts.exe" (killed "PTS.exe" w)) ++ evs)
           (set_workspaces (Some (prune 4 es))
              (killed "Fts.exe" (killed "PTS.exe" w))).
Proof.
  rewrite recover_pts_steps.
  set (w2 := killed "Fts.exe" (killed "PTS.exe" w)).
  assert (Hws : workspaces w2 = workspaces w) by reflexivity.
  assert (Hyk : ykushcmd_installed w2 = ykushcmd_installed w) by reflexivity.
  clearbody w2.
  destruct (workspaces w) as [es|] eqn:Hw.
  - destruct (delete_workspaces_spec w2 es Hws)
      as (r & es' & evs & Hdel & _ & Hiff & Hdone & Hshape).
    rewrite Hdel. destruct Hshape as [-> | ->]; [|discriminate].
    destruct (Hdone eq_refl) as [-> ->].
    assert (Hc : clean 4 es = true) by (apply Hiff; reflexivity).
    destruct ports as [|port ports].
    + intros H. inversion H; subst w1. exists es. eexists.
      split; [reflexivity|]. split; [exact Hc|]. reflexivity.
    + destruct (ykushcmd_installed w) eqn:Hi.
      * rewrite turn_on_dongle_installed by exact Hyk.
        intros H. inversion H; subst w1. exists es.
        exists (List.map EvRemove (temp_files 4 [] es) ++
                replug (swept (prune 4 es) (List.map EvRemove (temp_files 4 [] es)) w2)
                  (port :: ports)).
        split; [reflexivity|]. split; [exact Hc|].
        unfold swept. destruct w2; unfold set_trace, set_workspaces; simpl.
        rewrite <- app_assoc. reflexivity.
      * rewrite turn_on_dongle_missing by exact Hyk. discriminate.
  - rewrite delete_workspaces_missing by exact Hws. discriminate.
Qed.

(** X8.  After a recovery that returned, a recovery without ports
    returns and changes nothing: no process is left to terminate and no
    temp file is left to remove. *)
Theorem X8_recover_pts_again (ports : list string) (w w1 : World) :
  recover_pts ports w = (Ok tt, w1) ->
  recover_pts [] w1 = (Ok tt, w1).
Proof.
  intros H. apply recover_pts_returned in H as (es & evs & Hw & Hc & ->).
  set (w2 := killed "Fts.exe" (killed "PTS.exe" w)).
  set (w1 := set_trace (trace w2 ++ evs) (set_workspaces (Some (prune 4 es)) w2)).
  assert (Hk1 : killable "PTS.exe" w1 = []).
  { exact (killable_killed_twice "PTS.exe" "Fts.exe" w). }
  assert (Hk2 : killable "Fts.exe" w1 = []).
  { exact (killable_killed "Fts.exe" (killed "PTS.exe" w)). }
  rewrite recover_pts_steps.
  rewrite (killed_nothing "PTS.exe" w1 Hk1), (killed_nothing "Fts.exe" w1 Hk2).
  rewrite (delete_workspaces_of_pruned w1 es); [reflexivity|reflexivity|exact Hc].
Qed.

Lemma X8_recover_pts_witness :
  recover_pts [] (snd (recover_pts ["1"; "2"] busy_world)) =
  (Ok tt, snd (recover_pts ["1"; "2"] busy_world)).
Proof.
  apply (X8_recover_pts_again ["1"; "2"] busy_world).
  vm_compute. reflexivity.
Defined.

(** ** Which processes are terminated *)

Lemma same_row (table : list Process) (p q : Process) :
  List.NoDup (List.map ProcessId table) -> In p table -> In q table ->
  ProcessId p = ProcessId q -> p = q.
Proof.
  induction table as [|r table IH]; simpl; intros Hnd Hp Hq Hid; [destruct Hp|].
  apply NoDup_cons_iff in Hnd as [Hnotin Hnd].
  destruct Hp as [-> | Hp], Hq as [-> | Hq]; auto.
  - exfalso. apply Hnotin. rewrite Hid. apply in_map. exact Hq.
  - exfalso. apply Hnotin. rewrite <- Hid. apply in_map. exact Hp.
Qed.

(** X9.  [kill_all_processes] always returns.  In a process table with
    one row per process id it takes away exactly the rows of that name
    whose [Terminate] goes through, one [Terminate] each in table order:
    rows of another name stay, and so does a row of that name whose
    [Terminate] raises.  Nothing else of the world changes. *)
Theorem X9_kill_all_processes_takes_the_named (name : string) (w : World) :
  List.NoDup (List.map ProcessId (procs w)) ->
  exists w', kill_all_processes name w = (Ok tt, w') /\
    procs w' =
      List.filter (fun ps => negb (String.eqb (Name ps) name && negb (gone ps)))
        (procs w) /\
    trace w' = trace w ++
      List.map (fun ps => EvTerminate name (ProcessId ps))
        (List.filter (fun ps => String.eqb (Name ps) name && negb (gone ps)) (procs w)) /\
    (forall ps, In ps (procs w) -> Name ps <> name -> In ps (procs w')) /\
    (forall ps, In ps (procs w') -> In ps (procs w)) /\
    set_trace (trace w) (set_procs (procs w) w') = w.
Proof.
  intros Hnd. exists (killed name w). split; [apply kill_all_processes_spec|].
  assert (Hprocs : procs (killed name w) =
    List.filter (fun ps => negb (String.eqb (Name ps) name && negb (gone ps))) (procs w)).
  { simpl. rewrite reap_filter. apply List.filter_ext_in. intros q Hq.
    destruct (String.eqb (Name q) name && negb (gone q)) eqn:Hs; simpl.
    - apply not_true_is_false. intros Hall. rewrite forallb_forall in Hall.
      assert (Hk : In q (killable name w)).
      { rewrite killable_filter. apply List.filter_In. auto. }
      specialize (Hall q Hk). rewrite Z.eqb_refl in Hall. discriminate.
    - apply forallb_forall. intros ps Hps.
      rewrite killable_filter in Hps. apply List.filter_In in Hps as [Hin Hsel].
      destruct (ProcessId q =? ProcessId ps) eqn:Hid; [|reflexivity].
      apply Z.eqb_eq in Hid.
      rewrite (same_row (procs w) q ps Hnd Hq Hin Hid) in Hs. congruence. }
  split; [exact Hprocs|]. split.
  - simpl. f_equal. rewrite killable_filter. unfold kill_event.
    apply map_ext_in. intros ps Hps. apply List.filter_In in Hps as [_ Hsel].
    apply andb_true_iff in Hsel as [Hn _]. apply String.eqb_eq in Hn.
    rewrite Hn. reflexivity.
  - split; [|split].
    + intros ps Hin Hne. rewrite Hprocs. apply List.filter_In. split; [exact Hin|].
      apply String.eqb_neq in Hne. rewrite Hne. reflexivity.
    + intros ps Hin. rewrite Hprocs in Hin. apply List.filter_In in Hin as [Hin _].
      exact Hin.
    + unfold killed. destruct w; reflexivity.
Qed.

Lemma X9_kill_all_processes_witness :
  List.NoDup (List.map ProcessId (procs busy_world)) /\
  exists w', kill_all_processes "PTS.exe" busy_world = (Ok tt, w') /\
    procs w' =
      List.filter (fun ps => negb (String.eqb (Name ps) "PTS.exe" && negb (gone ps)))
        (procs busy_world).
Proof.
  assert (Hnd : List.NoDup (List.map ProcessId (procs busy_world))).
  { vm_compute. repeat constructor; simpl; intuition discriminate. }
  split; [exact Hnd|].
  destruct (X9_kill_all_processes_takes_the_named "PTS.exe" busy_world Hnd)
    as (w' & H1 & H2 & _).
  exists w'. split; [exact H1|exact H2].
Defined.

(** ** A worker whose engine is not there yet *)

(** X10.  [last_start()] of a worker without an engine handle is the
    present time, so such a worker is never idle for a timeout that is
    not negative, and while one is registered a pass of the watchdog
    terminates nobody, however long the other workers have been idle:
    the pass only sleeps. *)
Theorem X10_unstarted_worker_keeps_watchdog_quiet (w : World) (srv : nat) :
  In srv (SuperGuard.servers (superguard w)) ->
  Server.pts (heap w !!! srv) = None ->
  0 <= SuperGuard.timeout (superguard w) ->
  Server_last_start srv w = (Ok (now w), w) /\
  SuperGuard_run_pass w = (Ok tt, set_trace (trace w ++ [EvSleep 5]) w).
Proof.
  intros Hin Hpts Ht. split.
  - rewrite Server_last_start_spec. unfold last_start_at. rewrite Hpts. reflexivity.
  - rewrite SuperGuard_run_pass_spec.
    destruct ((length (List.filter (idle w) (SuperGuard.servers (superguard w)))
                 =? length (SuperGuard.servers (superguard w)))%nat
              && negb (length (List.filter (idle w) (SuperGuard.servers (superguard w)))
                         =? 0)%nat) eqn:Htest; [|reflexivity].
    apply (proj1 (fire_test_iff w)) in Htest. destruct Htest as [_ Hall].
    specialize (Hall srv Hin). unfold last_start_at in Hall. rewrite Hpts in Hall. lia.
Qed.

Lemma X10_unstarted_worker_witness :
  idle half_started 0 = true /\
  SuperGuard_run_pass half_started =
  (Ok tt, set_trace (trace half_started ++ [EvSleep 5]) half_started).
Proof.
  split; [reflexivity|].
  apply (X10_unstarted_worker_keeps_watchdog_quiet half_started 1%nat).
  - simpl. auto.
  - reflexivity.
  - simpl. lia.
Defined.

(** ** The fleet of several ports *)

Section Fleet.
Variable PyPTSWithXmlRpcCallback : M PyPTS.
Variable SimpleXMLRPCServer : Z -> M unit.
Variable serve_forever : nat -> M unit.
Variable env : M unit.

(** The wait of [multi_main] ends on a queue that is not empty only. *)
Lemma multi_main_wait_returns (fuel : nat) (servers : list nat) :
forall w w',
  multi_main_wait env fuel servers w = (Ok tt, w') -> queue w' <> [].
Proof.
induction fuel as [|fuel IH]; intros w w' H; [discriminate|].
simpl in H. unfold bind at 1, gets in H.
destruct (queue w) as [|e q] eqn:Hq.
- unfold bind at 1 in H.
  destruct (for_ servers _ w) as [[u| |] w1]; try discriminate.
  unfold bind at 1 in H.
  destruct (pause env 2 w1) as [[u'| |] w2]; try discriminate.
  apply (IH w2). exact H.
- inversion H; subst w'. rewrite Hq. discriminate.
Qed.

Lemma multi_main_returns (fuel : nat) (_args : Namespace.t) (w w' : World) :
  multi_main env fuel _args w = (Ok tt, w') -> queue w' <> [].
Proof.
unfold multi_main. destruct (Namespace.srv_port _args) as [ports|port];
  [|discriminate].
unfold bind at 1.
destruct (multi_main_start env ports [] w) as [[servers| |] w1]; try discriminate.
unfold bind at 1.
destruct (multi_main_wait env fuel servers w1) as [[[]| |] w2] eqn:Hwait;
  try discriminate.
rewrite terminate_all_spec. intros H. inversion H; subst w'.
apply multi_main_wait_returns in Hwait. simpl.
destruct (queue w2); [congruence|discriminate].
Qed.

(** X11.  With more than one port the program never ends well.
    [multi_main] returns only when a cause is queued, so the pass of the
    main loop that ran it never reaches [break]: it recovers or ends the
    process, and the exit status is never 0, whatever the workers and the
    other threads do. *)
Theorem X11_many_ports_never_end_well (_args : Namespace.t) (ports : list Z) :
  Namespace.srv_port _args = PortList ports ->
  forall fuel w,
    (forall w', multi_main env fuel _args w = (Ok tt, w') -> queue w' <> []) /\
    fst (main_pass _args
           (fleet PyPTSWithXmlRpcCallback SimpleXMLRPCServer serve_forever env
              fuel _args) w) <> Ok Break /\
    exit_status
      (fst (main_loop PyPTSWithXmlRpcCallback SimpleXMLRPCServer serve_forever env
              fuel _args w)) <> Some 0.
Proof.
intros Hports.
assert (Hpass : forall fuel w,
  fst (main_pass _args
         (fleet PyPTSWithXmlRpcCallback SimpleXMLRPCServer serve_forever env
            fuel _args) w) <> Ok Break).
{ intros fuel w Hb.
  destruct (main_pass _args _ w) as [r w2] eqn:Hpass. simpl in Hb. subst r.
  apply main_pass_break in Hpass as [Hbody Hq].
  unfold fleet in Hbody. rewrite Hports in Hbody.
  apply multi_main_returns in Hbody. contradiction. }
intros fuel w. split; [intros w'; apply multi_main_returns|].
split; [apply Hpass|].
intros Hst. apply main_loop_status_zero in Hst as (fuel' & w1 & w2 & Hbreak).
apply (Hpass fuel' w1). rewrite Hbreak. reflexivity.
Qed.

End Fleet.

Lemma X11_many_ports_witness :
  exit_status
    (fst (main_loop (ret {| last_start_time := 0 |}) (fun _ => ret tt)
            (fun _ => ret tt) (modify (set_queue ["Server is down"]))
            3 (two_ports 0) world0)) <> Some 0.
Proof.
  apply (X11_many_ports_never_end_well (ret {| last_start_time := 0 |})
           (fun _ => ret tt) (fun _ => ret tt) (modify (set_queue ["Server is down"]))
           (two_ports 0) [50000; 50001] eq_refl 3%nat world0).
Defined.

(** ** The thread of a worker *)

Section Worker.
Variable PyPTSWithXmlRpcCallback : M PyPTS.
Variable SimpleXMLRPCServer : Z -> M unit.
Variable serve_forever : nat -> M unit.
Variable format_exc : exn -> string.

(** X12.  [Server.run] lets no [Exception] out of [Server.main] escape:
    it turns it into one call of [terminate] with a message that names
    the port, so the cause is queued once when the worker has a queue,
    and the thread ends.  Ctrl-C and [SystemExit] are not caught and are
    not reported.  A worker made without [_args] (as the one of the
    one-port mode is) cannot be run as a thread: the handler itself
    raises [AttributeError] and nothing is queued. *)
Theorem X12_run_reports_what_main_raises (self : nat) (w : World) :
match Server._args (heap w !!! self) with
| Some srv_port =>
    (forall e,
       fst (Server_run PyPTSWithXmlRpcCallback SimpleXMLRPCServer serve_forever
              format_exc self w) = Raise e -> is_Exception e = false) /\
    (forall r w1,
       Server_main PyPTSWithXmlRpcCallback SimpleXMLRPCServer serve_forever
         self srv_port w = (r, w1) ->
       Server_run PyPTSWithXmlRpcCallback SimpleXMLRPCServer serve_forever
         format_exc self w =
       match r with
       | Ok _ => (Ok tt, w1)
       | Raise e =>
           if is_Exception e then
             (Ok tt,
              set_trace (trace w1 ++ (if has_endpoint w1 self then [EvShutdown self] else []))
                (set_queue
                   (queue w1 ++
                    (if has_queue w1 self
                     then [("from Server process on port " ++ str srv_port ++ ":" ++ nl
                            ++ format_exc e)%string]
                     else [])) w1))
           else (Raise e, w1)
       | Running => (Running, w1)
       end)
| None =>
    Server_run PyPTSWithXmlRpcCallback SimpleXMLRPCServer serve_forever
      format_exc self w = (Raise (AttributeError "srv_port"), w)
end.
Proof.
destruct (Server._args (heap w !!! self)) as [srv_port|] eqn:Hargs.
- assert (Hrun : forall r w1,
    Server_main PyPTSWithXmlRpcCallback SimpleXMLRPCServer serve_forever
      self srv_port w = (r, w1) ->
    Server_run PyPTSWithXmlRpcCallback SimpleXMLRPCServer serve_forever
      format_exc self w =
    match r with
    | Ok _ => (Ok tt, w1)
    | Raise e =>
        if is_Exception e then
          (Ok tt,
           terminated [self]
             ("from Server process on port " ++ str srv_port ++ ":" ++ nl
              ++ format_exc e)%string w1)
        else (Raise e, w1)
    | Running => (Running, w1)
    end).
  { intros r w1 Hmain. unfold Server_run, bind at 1, deref, gets.
    rewrite Hargs. unfold try_except, bind at 1. rewrite Hmain.
    destruct r as [v|e|]; try reflexivity.
    destruct (is_Exception e); [|reflexivity].
    apply Server_terminate_spec. }
  split.
  + intros e He.
    destruct (Server_main PyPTSWithXmlRpcCallback SimpleXMLRPCServer serve_forever
                self srv_port w) as [r w1] eqn:Hmain.
    rewrite (Hrun r w1 eq_refl) in He.
    destruct r as [v|e'|]; simpl in He; try discriminate.
    destruct (is_Exception e') eqn:Hex; simpl in He; [discriminate|].
    inversion He; subst e. exact Hex.
  + intros r w1 Hmain. rewrite (Hrun r w1 Hmain).
    destruct r as [v|e|]; try reflexivity.
    destruct (is_Exception e); [|reflexivity].
    unfold terminated. simpl.
    destruct (has_endpoint w1 self), (has_queue w1 self); reflexivity.
- unfold Server_run, bind at 1, deref, gets. rewrite Hargs. reflexivity.
Qed.

End Worker.

(** ** What a pass of the main loop does with the queue *)

Lemma on_failure_keeps_queue (_args : Namespace.t) (w1 : World) :
  queue (snd (on_failure _args w1)) = queue w1.
Proof.
  destruct (Namespace.recovery _args || SuperGuard.was_timeout (superguard w1)) eqn:Hf.
  - destruct (on_failure_recovers _args w1 Hf) as (r & w2 & Hrec & -> & _).
    destruct (recover_pts_spec (Namespace.ykush _args) (cleared w1))
      as (r' & w2' & done & rest & Heq & _ & _ & _ & _ & _ & Hsame & _).
    rewrite Hrec in Heq. inversion Heq; subst.
    destruct Hsame as (_ & Hq & _). simpl. rewrite Hq. reflexivity.
  - rewrite on_failure_fatal by exact Hf. reflexivity.
Qed.

(** X13.  A pass of the main loop takes the causes off the queue only
    when the fleet returned, and then all of them, however the pass
    ends.  When the fleet raised, the handler (recovery included) leaves
    the queue as the fleet left it, so causes queued before are still
    there when the loop comes round. *)
Theorem X13_queue_is_emptied_only_when_the_fleet_returns
    (_args : Namespace.t) (body : M unit) (w : World) :
  match body w with
  | (Ok _, w1) => queue (snd (main_pass _args body w)) = []
  | (Raise e, w1) => queue (snd (main_pass _args body w)) = queue w1
  | (Running, w1) => main_pass _args body w = (Running, w1)
  end.
Proof.
  destruct (body w) as [[[]|e|] w1] eqn:Hb.
  - destruct (queue w1) as [|c q] eqn:Hq.
    + assert (H : main_pass _args body w = (Ok Break, w1))
        by (apply main_pass_break; auto).
      rewrite H. exact Hq.
    + rewrite (main_pass_failure _args body w (set_queue [] w1)).
      * rewrite on_failure_keeps_queue. reflexivity.
      * right. exists w1. rewrite Hq. repeat split; [exact Hb|discriminate].
  - destruct (exn_is_interrupt e) eqn:He.
    + destruct e; try discriminate.
      unfold main_pass, try_except, bind at 1. rewrite Hb. reflexivity.
    + rewrite (main_pass_failure _args body w w1).
      * apply on_failure_keeps_queue.
      * left. exists e. split; [intros ->; discriminate|exact Hb].
  - unfold main_pass, try_except, bind at 1. rewrite Hb. reflexivity.
Qed.

(** ** The end of the watchdog thread *)

Lemma step_keeps_end (s : Step) (w w' : World) :
  step s w = Some w' ->
  SuperGuard.end_ (superguard w') = SuperGuard.end_ (superguard w).
Proof.
  destruct s; simpl; intros H.
  - destruct (0 <=? dt); inversion H; reflexivity.
  - destruct (superguard_started w && negb (SuperGuard.end_ (superguard w)));
      inversion H; subst.
    destruct (run_pass_frame w) as [-> | ->]; reflexivity.
  - inversion H; reflexivity.
  - inversion H; reflexivity.
  - inversion H; subst. unfold begin_work, bind, time_time, gets, deref. simpl.
    destruct (Server.pts (heap w !!! srv)); reflexivity.
  - inversion H; subst. destruct (dispatch_frame srv c w) as (_ & _ & -> & _).
    reflexivity.
  - inversion H; subst. unfold bind. rewrite Server_terminate_spec. reflexivity.
  - inversion H; reflexivity.
  - inversion H; subst. rewrite Server_terminate_spec. reflexivity.
  - inversion H; reflexivity.
  - inversion H; subst. unfold bind. rewrite SuperGuard_clear_spec.
    destruct (recover_pts_spec ykush_ports (cleared w))
      as (r & w2 & done & rest & Heq & _ & _ & _ & _ & _ & Hsame & _).
    rewrite Heq. simpl. destruct Hsame as (_ & _ & -> & _). reflexivity.
Qed.

Section Watchdog.
Variable env : M unit.

Lemma SuperGuard_run_returns (fuel : nat) :
forall w w',
  SuperGuard_run env fuel w = (Ok tt, w') ->
  SuperGuard.end_ (superguard w') = true.
Proof.
induction fuel as [|fuel IH]; intros w w' H; [discriminate|].
simpl in H. unfold bind at 1, gets in H.
destruct (SuperGuard.end_ (superguard w)) eqn:Hend.
- inversion H; subst w'. exact Hend.
- unfold bind at 1 in H. rewrite SuperGuard_run_pass_spec in H.
  unfold bind at 1 in H.
  destruct (env _) as [[u| |] w2]; try discriminate.
  apply (IH w2). exact H.
Qed.

(** X14.  The watchdog thread ends in one way only: [run] returns when
    it finds the flag [end] set, which [SuperGuard.terminate] does, and
    then at its next test without another pass.  No step of the threads
    of this program sets or unsets that flag, so a watchdog that was
    started polls as long as the process lives. *)
Theorem X14_watchdog_ends_only_when_told (fuel : nat) (w : World) :
  (forall w', SuperGuard_run env fuel w = (Ok tt, w') ->
     SuperGuard.end_ (superguard w') = true) /\
  (exists w1, SuperGuard_terminate w = (Ok tt, w1) /\
     SuperGuard_run env (S fuel) w1 = (Ok tt, w1)) /\
  (forall steps w',
     exec steps w = Some w' ->
     SuperGuard.end_ (superguard w') = SuperGuard.end_ (superguard w)).
Proof.
split; [intros w'; apply SuperGuard_run_returns|]. split.
- eexists. split; reflexivity.
- intros steps. revert w. induction steps as [|s steps IH]; intros w w' H.
  + inversion H; reflexivity.
  + simpl in H. destruct (step s w) as [w1|] eqn:Hs; [|discriminate].
    rewrite (IH w1 w' H). apply (step_keeps_end s). exact Hs.
Qed.

End Watchdog.

(** ** The start of the fleet *)

Section Start.
Variable env : M unit.
Hypothesis Henv : keeps_workers env.

Lemma multi_main_start_spec (ports : list Z) :
forall servers w,
  exists w',
    multi_main_start env ports servers w =
      (Ok (servers ++ seq (length (heap w)) (length ports)), w') /\
    length (heap w') = (length (heap w) + length ports)%nat /\
    SuperGuard.servers (superguard w') =
      SuperGuard.servers (superguard w) ++ seq (length (heap w)) (length ports) /\
    (forall k port, ports !! k = Some port ->
       Server._args (heap w' !!! (length (heap w) + k)%nat) = Some port /\
       Server.queue (heap w' !!! (length (heap w) + k)%nat) = true) /\
    (forall i, (i < length (heap w))%nat ->
       Server._args (heap w' !!! i) = Server._args (heap w !!! i) /\
       Server.queue (heap w' !!! i) = Server.queue (heap w !!! i)).
Proof.
induction ports as [|port rest IH]; intros servers w.
- exists w. simpl. rewrite !app_nil_r, Nat.add_0_r.
  split; [reflexivity|]. split; [reflexivity|]. split; [reflexivity|].
  split; [intros k port Hk; discriminate|]. intros i Hi. split; reflexivity.
- set (n0 := length (heap w)).
  set (h1 := <[n0 := Server.set_alive true ((heap w ++ [Server.__init__ (Some port) true]) !!! n0)]>
               (heap w ++ [Server.__init__ (Some port) true])).
  set (w1 := set_trace (trace w ++ [EvSleep 5])
               (set_superguard
                  (SuperGuard.set_servers (SuperGuard.servers (superguard w) ++ [n0])
                     (superguard w))
                  (set_heap h1 w))).
  destruct (Henv w1) as (w2 & Hw2 & Hlen & Hreg & Hfields).
  assert (Hstep : multi_main_start env (port :: rest) servers w =
                  multi_main_start env rest (servers ++ [n0]) w2).
  { transitivity
      (match env w1 with
       | (Ok _, w') => multi_main_start env rest (servers ++ [n0]) w'
       | (Raise e, w') => (Raise e, w')
       | (Running, w') => (Running, w')
       end); [reflexivity|].
    rewrite Hw2. reflexivity. }
  assert (Hlen1 : length h1 = S n0).
  { unfold h1. rewrite length_insert, length_app. simpl. unfold n0. lia. }
  assert (Hnew : h1 !!! n0 = Server.set_alive true (Server.__init__ (Some port) true)).
  { unfold h1. rewrite list_lookup_total_insert_eq.
    - rewrite (list_lookup_total_middle (heap w) []); reflexivity.
    - rewrite length_app. simpl. unfold n0. lia. }
  assert (Hold : forall i, (i < n0)%nat -> h1 !!! i = heap w !!! i).
  { intros i Hi. unfold h1. rewrite list_lookup_total_insert_ne by lia.
    apply lookup_total_app_l. exact Hi. }
  assert (Hlen2 : length (heap w2) = S n0) by (rewrite Hlen; exact Hlen1).
  destruct (IH (servers ++ [n0]) w2) as (w' & Hrun & Hlen' & Hreg' & Hports & Hkept).
  exists w'. rewrite Hstep, Hrun, Hlen2. split; [|split; [|split; [|split]]].
  + rewrite <- app_assoc. reflexivity.
  + rewrite Hlen', Hlen2. simpl. lia.
  + rewrite Hreg', Hreg, Hlen2. simpl. rewrite <- app_assoc. reflexivity.
  + intros k p Hk. destruct k as [|k].
    * simpl in Hk. inversion Hk; subst p. rewrite Nat.add_0_r.
      destruct (Hkept n0) as [Ha Hq]; [lia|]. rewrite Ha, Hq.
      destruct (Hfields n0) as [-> ->]. simpl. rewrite Hnew. split; reflexivity.
    * simpl in Hk. destruct (Hports k p Hk) as [Ha Hq].
      rewrite Hlen2 in Ha, Hq.
      replace (n0 + S k)%nat with (S n0 + k)%nat by lia. split; assumption.
  + intros i Hi. destruct (Hkept i) as [Ha Hq]; [lia|]. rewrite Ha, Hq.
    destruct (Hfields i) as [-> ->]. simpl. rewrite (Hold i Hi). split; reflexivity.
Qed.

(** X15.  The first loop of [multi_main] makes one worker for each port,
    in the order of the ports: when the other threads leave the workers
    and the registry alone it returns as many new workers as there are
    ports, each with its own port and with the queue, and has registered
    them with the watchdog in that order behind the workers that were
    registered before; the workers that existed keep their port. *)
Theorem X15_one_worker_for_each_port (ports : list Z) (w : World) :
  exists w',
    multi_main_start env ports [] w =
      (Ok (seq (length (heap w)) (length ports)), w') /\
    length (heap w') = (length (heap w) + length ports)%nat /\
    SuperGuard.servers (superguard w') =
      SuperGuard.servers (superguard w) ++ seq (length (heap w)) (length ports) /\
    (forall k port, ports !! k = Some port ->
       Server._args (heap w' !!! (length (heap w) + k)%nat) = Some port /\
       Server.queue (heap w' !!! (length (heap w) + k)%nat) = true) /\
    (forall i, (i < length (heap w))%nat ->
       Server._args (heap w' !!! i) = Server._args (heap w !!! i)).
Proof.
destruct (multi_main_start_spec ports [] w) as (w' & H1 & H2 & H3 & H4 & H5).
exists w'. split; [exact H1|]. split; [exact H2|]. split; [exact H3|].
split; [exact H4|]. intros i Hi. apply H5. exact Hi.
Qed.

End Start.

Lemma X15_one_worker_witness :
  keeps_workers five_later /\
  exists w',
    multi_main_start five_later [50000; 50001] [] world0 = (Ok [0; 1]%nat, w') /\
    length (heap w') = 2%nat /\
    SuperGuard.servers (superguard w') = [0; 1]%nat.
Proof.
  assert (Hk : keeps_workers five_later) by (intros w; eexists; repeat split).
  split; [exact Hk|].
  destruct (X15_one_worker_for_each_port five_later Hk [50000; 50001] world0)
    as (w' & H1 & H2 & H3 & _).
  exists w'. repeat split; assumption.
Defined.

(** ** The wait of [multi_main] *)

Lemma down_loop_spec (servers : list nat) :
forall w,
  for_ servers (fun srv =>
    s <- deref srv ;;
    if negb (Server.alive s) then put "Server is down" else ret tt) w =
  (Ok tt,
   set_queue
     (queue w ++ List.map (fun _ => "Server is down") (List.filter (dead w) servers))
     w).
Proof.
induction servers as [|srv servers IH]; intros w.
- simpl. rewrite app_nil_r. unfold ret. destruct w; reflexivity.
- cbn [for_]. unfold bind at 1. unfold bind at 1, deref, gets.
  cbn [List.filter]. unfold dead at 1.
  destruct (negb (Server.alive (heap w !!! srv))).
  + unfold put, modify. rewrite IH. cbn [List.map]. f_equal.
    unfold set_queue. simpl. rewrite <- app_assoc. reflexivity.
  + unfold ret. apply IH.
Qed.

Section Wait.
Variable env : M unit.
Hypothesis Henv : only_adds_causes env.

(** X16.  A worker thread that has ended is found at the next pass of
    the wait of [multi_main]: with an empty queue the pass queues one
    ['Server is down'] for each worker that is not alive, in the order
    of the workers, and the wait ends at its next test, the other
    threads adding causes at most. *)
Theorem X16_dead_worker_ends_the_wait
    (fuel : nat) (servers : list nat) (srv : nat) (w : World) :
  queue w = [] ->
  In srv servers ->
  Server.alive (heap w !!! srv) = false ->
  exists w' more,
    multi_main_wait env (S (S fuel)) servers w = (Ok tt, w') /\
    queue w' =
      List.map (fun _ => "Server is down") (List.filter (dead w) servers) ++ more /\
    queue w' <> [].
Proof.
intros Hq Hin Hdead.
set (w1 := set_trace
             (trace w ++ [EvSleep 2])
             (set_queue
                (queue w ++
                 List.map (fun _ => "Server is down") (List.filter (dead w) servers))
                w)).
destruct (Henv w1) as (w2 & more & Hw2 & Hq2).
assert (Hne : queue w2 <> []).
{ rewrite Hq2. simpl. rewrite Hq. simpl.
  assert (Hf : In srv (List.filter (dead w) servers)).
  { apply List.filter_In. split; [exact Hin|]. unfold dead. rewrite Hdead. reflexivity. }
  destruct (List.filter (dead w) servers); [destruct Hf|discriminate]. }
exists w2, more. split; [|split; [|exact Hne]].
- cbn [multi_main_wait]. unfold bind at 1, gets. rewrite Hq.
  unfold bind at 1. rewrite down_loop_spec.
  unfold bind at 1, pause, bind at 1, sleep, emit, modify.
  change (env _) with (env w1). rewrite Hw2.
  unfold bind at 1, gets. destruct (queue w2); [congruence|reflexivity].
- rewrite Hq2. simpl. rewrite Hq. reflexivity.
Qed.

End Wait.

Lemma X16_dead_worker_witness :
  only_adds_causes five_later /\
  exists w' more,
    multi_main_wait five_later 2 [0; 1]%nat one_down = (Ok tt, w') /\
    queue w' = ["Server is down"] ++ more /\
    queue w' <> [].
Proof.
  assert (Hk : only_adds_causes five_later).
  { intros w. eexists. exists []. split; [reflexivity|].
    simpl. rewrite app_nil_r. reflexivity. }
  split; [exact Hk|].
  apply (X16_dead_worker_ends_the_wait five_later Hk 0 [0; 1]%nat 1%nat one_down).
  - reflexivity.
  - simpl. auto.
  - reflexivity.
Defined.

(** ** The names of temp files *)

Lemma append_cons (a : Ascii.ascii) (s t : string) :
  (String a s ++ t)%string = String a (s ++ t)%string.
Proof. reflexivity. Qed.

Lemma append_empty (t : string) : ("" ++ t)%string = t.
Proof. reflexivity. Qed.

Lemma startswith_spec (pre : string) :
  forall s, startswith s pre = true <-> exists rest, s = (pre ++ rest)%string.
Proof.
  unfold startswith. induction pre as [|a pre IH]; intros s.
  - split; [intros _; exists s; reflexivity|intros _; destruct s; reflexivity].
  - destruct s as [|b s]; simpl.
    + split; [discriminate|intros (rest & H); discriminate].
    + destruct (Ascii.ascii_dec a b) as [->|Hne].
      * rewrite IH. split; intros (rest & H); exists rest;
          rewrite append_cons in *; congruence.
      * split; [discriminate|intros (rest & H); rewrite append_cons in H; congruence].
Qed.

Lemma substring_all (s : string) : substring 0 (String.length s) s = s.
Proof. induction s as [|a s IH]; simpl; congruence. Qed.

Lemma substring_after (pre suf : string) :
  substring (String.length pre) (String.length suf) (pre ++ suf) = suf.
Proof.
  induction pre as [|a pre IH]; [apply substring_all|].
  rewrite append_cons. simpl. exact IH.
Qed.

Lemma length_append (a b : string) :
  String.length (a ++ b) = (String.length a + String.length b)%nat.
Proof.
  induction a as [|c a IH]; [reflexivity|].
  rewrite append_cons. simpl. congruence.
Qed.

Lemma substring_split (s : string) :
  forall i, (i <= String.length s)%nat ->
    s = (substring 0 i s ++ substring i (String.length s - i) s)%string.
Proof.
  induction s as [|a s IH]; intros i Hi; simpl in *.
  - destruct i; reflexivity.
  - destruct i as [|i]; simpl.
    + rewrite append_empty, substring_all. reflexivity.
    + rewrite append_cons, <- IH by lia. reflexivity.
Qed.

Lemma endswith_spec (s suf : string) :
  endswith s suf = true <-> exists pre, s = (pre ++ suf)%string.
Proof.
  unfold endswith. split.
  - intros H. apply andb_true_iff in H as [Hle Heq].
    apply Nat.leb_le in Hle. apply String.eqb_eq in Heq.
    exists (substring 0 (String.length s - String.length suf) s).
    transitivity
      (substring 0 (String.length s - String.length suf) s ++
       substring (String.length s - String.length suf)
         (String.length s - (String.length s - String.length suf)) s)%string.
    + apply substring_split. lia.
    + replace (String.length s - (String.length s - String.length suf))%nat
        with (String.length suf) by lia.
      rewrite Heq. reflexivity.
  - intros (pre & ->). rewrite length_append. apply andb_true_iff. split.
    + apply Nat.leb_le. lia.
    + replace (String.length pre + String.length suf - String.length suf)%nat
        with (String.length pre) by lia.
      rewrite substring_after. apply String.eqb_refl.
Qed.

(** X17.  The names [delete_workspaces] takes for temp files are the
    names made of ['temp_'], any text, and ['.pqw6'], in that order and
    without overlap: they have ten characters at least. *)
Theorem X17_temp_workspace_names (name : string) :
  temp_workspace name = true <->
  exists mid, name = ("temp_" ++ mid ++ ".pqw6")%string.
Proof.
  unfold temp_workspace. rewrite andb_true_iff, startswith_spec, endswith_spec.
  split.
  - intros [(rest & Hrest) (pre & Hpre)]. subst name.
    do 5 (destruct pre as [|? pre]; [discriminate|]).
    rewrite !append_cons, ?append_empty in Hpre. inversion Hpre. exists pre.
    rewrite !append_cons, append_empty. reflexivity.
  - intros (mid & ->). split.
    + exists (mid ++ ".pqw6")%string. reflexivity.
    + exists ("temp_" ++ mid)%string. rewrite !append_cons, !append_empty. reflexivity.
Qed.
